(** * etcdctl: the plain-text ("simple") response printer

    A shallow embedding of [etcdctl/ctlv3/command/printer_simple.go].
    Every method of [simplePrinter] writes text to the process's standard
    output (and, for one method, standard error).  The two streams are
    modelled as a pair of byte strings threaded through every call; a Go
    [string] or [[]byte] is a Rocq [string] (a list of 8-bit characters).

    Layout: texts and streams, Go's [fmt] verbs, the response types, the
    methods of [simplePrinter], then the properties. *)

From Stdlib Require Import String Ascii List Bool ZArith NArith Arith Lia.
From Stdlib Require Import DecimalString HexadecimalString.
From Stdlib Require HexadecimalFacts HexadecimalPos HexadecimalN.
From Stdlib Require DecimalPos DecimalZ.
Import ListNotations.
Local Open Scope string_scope.

(* ------------------------------------------------------------------ *)
(** ** Texts *)

(** The texts Go writes as "\n", "\t" and "\x00". *)
Definition newline : ascii := "010"%char.
Definition nl : string := String newline "".
Definition tab : string := String "009"%char "".
Definition nul : string := String "000"%char "".

(** Concatenation of a list of texts, in order. *)
Fixpoint cat (l : list string) : string :=
  match l with
  | [] => ""
  | s :: r => s ++ cat r
  end.

(** [occurs c s]: the character [c] occurs in [s]. *)
Fixpoint occurs (c : ascii) (s : string) : bool :=
  match s with
  | EmptyString => false
  | String x r => Ascii.eqb c x || occurs c r
  end.

(** [contains needle hay]: [needle] is a contiguous substring of [hay]. *)
Fixpoint contains (needle hay : string) : bool :=
  String.prefix needle hay ||
  match hay with
  | EmptyString => false
  | String _ r => contains needle r
  end.

(** Number of line terminators in a text. *)
Fixpoint lines (s : string) : nat :=
  match s with
  | EmptyString => 0
  | String x r => (if Ascii.eqb x newline then 1 else 0) + lines r
  end.

(** [only allowed s]: every character of [s] is one of [allowed]. *)
Fixpoint only (allowed s : string) : bool :=
  match s with
  | EmptyString => true
  | String x r => occurs x allowed && only allowed r
  end.

(** The characters of a formatted integer. *)
Definition number_alphabet : string := "-0123456789abcdef".

(* ------------------------------------------------------------------ *)
(** ** The output streams *)

(** [os.Stdout] and [os.Stderr]: everything written so far. *)
Record World : Type := mkWorld { Stdout : string; Stderr : string }.

Definition nothing : World := mkWorld "" "".

(** [emit w o]: the streams of [w] followed by the text of [o]. *)
Definition emit (w o : World) : World :=
  mkWorld (Stdout w ++ Stdout o) (Stderr w ++ Stderr o).

(** A printing action: the Go methods return no value. *)
Definition Print : Type := World -> World.

Definition skip : Print := fun w => w.

Definition seq (p q : Print) : Print := fun w => q (p w).

Declare Scope print_scope.
Delimit Scope print_scope with print.
Bind Scope print_scope with Print.
Notation "p ;; q" := (seq p q) (at level 61, right associativity) : print_scope.
Local Open Scope print_scope.

(** [fmt.Print(s)], and [fmt.Printf] once its verbs are expanded to [s]. *)
Definition fmt_Print (s : string) : Print :=
  fun w => mkWorld (Stdout w ++ s) (Stderr w).

(** [fmt.Fprintf(os.Stderr, ...)] once its verbs are expanded to [s]. *)
Definition fmt_Fprint_Stderr (s : string) : Print :=
  fun w => mkWorld (Stdout w) (Stderr w ++ s).

(** [fmt.Println(s)]. *)
Definition fmt_Println (s : string) : Print := fmt_Print (s ++ nl).

(** [for _, x := range xs { body x }]. *)
Fixpoint for_range {A : Type} (xs : list A) (body : A -> Print) : Print :=
  match xs with
  | [] => skip
  | x :: rest => body x ;; for_range rest body
  end.

(** What an action writes when it starts from empty streams. *)
Definition out (p : Print) : string := Stdout (p nothing).
Definition err (p : Print) : string := Stderr (p nothing).

(** An action is append-only when all it does to the streams is to add
    a text that does not depend on what the streams already hold. *)
Definition appends (p : Print) : Prop := forall w, p w = emit w (p nothing).

(* ------------------------------------------------------------------ *)
(** ** Go's [fmt] verbs, at the argument types the printer uses *)

(** [%d] (and [%v], [Println]) of an integer. *)
Definition fmt_d (n : Z) : string :=
  DecimalString.NilZero.string_of_int (Z.to_int n).

(** Lower-case hexadecimal digits of a natural number. *)
Definition hex (n : N) : string :=
  HexadecimalString.NilZero.string_of_uint (N.to_hex_uint n).

Fixpoint repeat_char (c : ascii) (k : nat) : string :=
  match k with
  | O => ""
  | S k' => String c (repeat_char c k')
  end.

Definition pad_left (c : ascii) (width : nat) (s : string) : string :=
  repeat_char c (width - String.length s) ++ s.

(** [%016x] of a signed integer ([LeaseID] is an [int64]): the sign
    takes one of the sixteen columns. *)
Definition fmt_016x (n : Z) : string :=
  if (n <? 0)%Z
  then "-" ++ pad_left "0" 15 (hex (Z.to_N (- n)))
  else pad_left "0" 16 (hex (Z.to_N n)).

(** [%16x] of a [uint64]: padded with spaces. *)
Definition fmt_16x (n : Z) : string := pad_left " " 16 (hex (Z.to_N n)).

(** [%v] of a [bool]. *)
Definition fmt_v_bool (b : bool) : string := if b then "true" else "false".

(** [%v] of a [[]string]: the elements between brackets, separated by
    one space. *)
Definition fmt_v_strings (ks : list string) : string :=
  "[" ++ String.concat " " ks ++ "]".

(** [strings.Join(row, sep)]. *)
Definition strings_Join (row : list string) (sep : string) : string :=
  String.concat sep row.

Arguments fmt_d : simpl never.
Arguments fmt_016x : simpl never.
Arguments fmt_16x : simpl never.

(** [hex.EncodeToString]: two lower-case digits per byte. *)
Definition hex_digit (n : N) : ascii :=
  match String.get (N.to_nat n) "0123456789abcdef" with
  | Some c => c
  | None => "0"%char
  end.

Definition hex_byte (c : ascii) : string :=
  String (hex_digit (N_of_ascii c / 16)) (String (hex_digit (N_of_ascii c mod 16)) "").

Fixpoint hex_EncodeToString (s : string) : string :=
  match s with
  | EmptyString => ""
  | String c r => hex_byte c ++ hex_EncodeToString r
  end.

(* ------------------------------------------------------------------ *)
(** ** Response types (the fields the printer reads) *)

(** [mvccpb.KeyValue]. *)
Record KeyValue : Type := { kv_Key : string; kv_Value : string }.

(** [v3.DeleteResponse]. *)
Record DeleteResponse : Type := { Deleted : Z; PrevKvs : list KeyValue }.

(** [v3.GetResponse]. *)
Record GetResponse : Type := { Kvs : list KeyValue }.

(** [v3.PutResponse]; a nil [PrevKv] is [None]. *)
Record PutResponse : Type := { PrevKv : option KeyValue }.

(** The dynamic type of [ResponseOp.Response]: one of the three wrappers
    the printer knows, or anything else (a nil interface included),
    told apart by an opaque number. *)
Inductive isResponseOp_Response : Type :=
| ResponseOp_ResponseRange (ResponseRange : GetResponse)
| ResponseOp_ResponsePut (ResponsePut : PutResponse)
| ResponseOp_ResponseDeleteRange (ResponseDeleteRange : DeleteResponse)
| ResponseOp_unrecognized (shape : N).

(** [pb.ResponseOp]. *)
Record ResponseOp : Type := { Response : isResponseOp_Response }.

(** [v3.TxnResponse]. *)
Record TxnResponse : Type := { Succeeded : bool; Responses : list ResponseOp }.

(** [v3.Event]; [ev_Type] is the [int32] enumeration value. *)
Record Event : Type :=
  { ev_Type : Z; ev_PrevKv : option KeyValue; ev_Kv : KeyValue }.

(** [v3.WatchResponse]. *)
Record WatchResponse : Type := { Events : list Event }.

(** [v3.LeaseGrantResponse] and [v3.LeaseKeepAliveResponse]. *)
Record LeaseGrantResponse : Type := { lg_ID : Z; lg_TTL : Z }.
Record LeaseKeepAliveResponse : Type := { lk_ID : Z; lk_TTL : Z }.

(** [v3.LeaseTimeToLiveResponse]. *)
Record LeaseTimeToLiveResponse : Type :=
  { ID : Z; TTL : Z; GrantedTTL : Z; Keys : list string }.

(** [v3.LeaseStatus] and [v3.LeaseLeasesResponse]. *)
Record LeaseStatus : Type := { ls_ID : Z }.
Record LeaseLeasesResponse : Type := { ll_Leases : list LeaseStatus }.

(** [pb.ResponseHeader] and [pb.Member]. *)
Record ResponseHeader : Type := { ClusterId : Z }.
Record Member : Type := { m_ID : Z; IsLearner : bool }.

(** [v3.MemberAddResponse], and the member responses of which only the
    header is read. *)
Record MemberAddResponse : Type :=
  { ma_Header : ResponseHeader; ma_Member : Member }.
Record MemberResponse : Type := { Header : ResponseHeader }.

(** [v3.DowngradeResponse]. *)
Record DowngradeResponse : Type := { Version : string }.

(** [authpb.Permission_Type]. *)
Inductive Permission_Type : Type := PermRead | PermWrite | PermReadWrite.

Definition Permission_Type_eqb (a b : Permission_Type) : bool :=
  match a, b with
  | PermRead, PermRead | PermWrite, PermWrite | PermReadWrite, PermReadWrite => true
  | _, _ => false
  end.

(** [v3.Permission]. *)
Record Permission : Type :=
  { PermType : Permission_Type; Key : string; RangeEnd : string }.

(** [v3.AuthRoleGetResponse]; [Perm] is a slice, and a nil slice
    ([None]) is not the same value as an empty one ([Some []]). *)
Record AuthRoleGetResponse : Type := { Perm : option (list Permission) }.

(** [r.Perm == nil]. *)
Definition is_nil {A : Type} (sl : option (list A)) : bool :=
  match sl with
  | None => true
  | Some _ => false
  end.

(** The elements a [range] loop visits; none for a nil slice. *)
Definition elems {A : Type} (sl : option (list A)) : list A :=
  match sl with
  | None => []
  | Some l => l
  end.

(** Role and user lists, and the authentication status. *)
Record AuthRoleListResponse : Type := { rl_Roles : list string }.
Record AuthUserGetResponse : Type := { ug_Roles : list string }.
Record AuthUserListResponse : Type := { Users : list string }.
Record AuthStatusResponse : Type := { Enabled : bool; AuthRevision : Z }.

(** Responses that are passed to a method and never read by it. *)
Definition Unread : Type := unit.

(** The printer's configuration. *)
Record simplePrinter : Type := { isHex : bool; valueOnly : bool }.

Definition rootRole : string := "root".

(* ------------------------------------------------------------------ *)
(** ** Collaborators outside [printer_simple.go] *)

(** What the printer calls and this file cannot see: renderers of
    foreign types and the table builders.  Each is a function of its
    argument; the printer only interpolates or joins what it returns. *)
Class External : Type := {
  (** [%+v] of a [*pb.ResponseOp] *)
  fmt_plusv_ResponseOp : ResponseOp -> string;
  (** [pb.AlarmMember] and its [%+v] *)
  AlarmMember : Type;
  fmt_plusv_AlarmMember : AlarmMember -> string;
  (** [String()] of an event type, as [Println] shows it *)
  EventType_String : Z -> string;
  (** [types.ID.String] *)
  ID_String : Z -> string;
  (** the type of [epHealth.Took] and its [%v] *)
  Took_t : Type;
  fmt_v_Took : Took_t -> string;
  (** the rows of the three table builders *)
  MemberListResponse : Type;
  makeMemberListTable : MemberListResponse -> list (list string);
  epStatus : Type;
  makeEndpointStatusTable : list epStatus -> list (list string);
  epHashKV : Type;
  makeEndpointHashKVTable : list epHashKV -> list (list string)
}.

(** Modelled from the spec: [printKV] (the Key/Value Encoder, defined in
    the package's [printer.go], which is not among the sources).  In hex
    mode key and value are the lower-case hexadecimal digit pairs of
    their bytes, otherwise the bytes themselves; the key line is left
    out when [valueOnly] is set. *)
Definition printKV (isHex valueOnly : bool) (kv : KeyValue) : Print :=
  let k := if isHex then hex_EncodeToString (kv_Key kv) else kv_Key kv in
  let v := if isHex then hex_EncodeToString (kv_Value kv) else kv_Value kv in
  (if valueOnly then skip else fmt_Print (k ++ nl)) ;;
  fmt_Print (v ++ nl).

(** Modelled from the spec: the prefix range end of a key (computed by
    [v3.GetPrefixRangeEnd], whose code is not among the sources).  The
    last byte that is not 0xFF is incremented and the 0xFF bytes after
    it are dropped; a key made of 0xFF bytes only has no successor. *)
Fixpoint prefix_successor (key : string) : option string :=
  match key with
  | EmptyString => None
  | String b rest =>
      match prefix_successor rest with
      | Some e => Some (String b e)
      | None =>
          if (N_of_ascii b <? 255)%N
          then Some (String (ascii_of_N (N_of_ascii b + 1)) "")
          else None
      end
  end.

(** Modelled from the spec: [v3.GetPrefixRangeEnd] as a function to
    strings; "no successor" is the empty text. *)
Definition GetPrefixRangeEnd (prefix : string) : string :=
  match prefix_successor prefix with
  | Some e => e
  | None => ""
  end.

(** A key made of 0xFF bytes only (the empty key included). *)
Fixpoint all_0xFF (key : string) : bool :=
  match key with
  | EmptyString => true
  | String b rest => (N_of_ascii b =? 255)%N && all_0xFF rest
  end.

(* ------------------------------------------------------------------ *)
(** ** The methods of [simplePrinter] *)

Section Printer.

Context {ext : External}.
Variable s : simplePrinter.

(** [epHealth]. *)
Record epHealth : Type := { Ep : string; Took : Took_t; Error : string }.

(** [v3.AlarmResponse]. *)
Record AlarmResponse : Type := { Alarms : list AlarmMember }.

Definition Del (resp : DeleteResponse) : Print :=
  fmt_Println (fmt_d (Deleted resp)) ;;
  for_range (PrevKvs resp) (fun kv => printKV (isHex s) (valueOnly s) kv).

Definition Get (resp : GetResponse) : Print :=
  for_range (Kvs resp) (fun kv => printKV (isHex s) (valueOnly s) kv).

Definition Put (r : PutResponse) : Print :=
  fmt_Println "OK" ;;
  match PrevKv r with
  | Some kv => printKV (isHex s) (valueOnly s) kv
  | None => skip
  end.

Definition Txn (resp : TxnResponse) : Print :=
  (if Succeeded resp then fmt_Println "SUCCESS" else fmt_Println "FAILURE") ;;
  for_range (Responses resp) (fun r =>
    fmt_Println "" ;;
    match Response r with
    | ResponseOp_ResponseDeleteRange v => Del v
    | ResponseOp_ResponsePut v => Put v
    | ResponseOp_ResponseRange v => Get v
    | _ => fmt_Print ("unexpected response " ++ fmt_plusv_ResponseOp r ++ nl)
    end).

Definition Watch (resp : WatchResponse) : Print :=
  for_range (Events resp) (fun e =>
    fmt_Println (EventType_String (ev_Type e)) ;;
    match ev_PrevKv e with
    | Some kv => printKV (isHex s) (valueOnly s) kv
    | None => skip
    end ;;
    printKV (isHex s) (valueOnly s) (ev_Kv e)).

Definition Grant (resp : LeaseGrantResponse) : Print :=
  fmt_Print ("lease " ++ fmt_016x (lg_ID resp) ++ " granted with TTL("
             ++ fmt_d (lg_TTL resp) ++ "s)" ++ nl).

Definition Revoke (id : Z) (r : Unread) : Print :=
  fmt_Print ("lease " ++ fmt_016x id ++ " revoked" ++ nl).

Definition KeepAlive (resp : LeaseKeepAliveResponse) : Print :=
  fmt_Print ("lease " ++ fmt_016x (lk_ID resp) ++ " keepalived with TTL("
             ++ fmt_d (lk_TTL resp) ++ ")" ++ nl).

Definition TimeToLive (resp : LeaseTimeToLiveResponse) (keys : bool) : Print :=
  if (GrantedTTL resp =? 0)%Z && (TTL resp =? -1)%Z then
    fmt_Print ("lease " ++ fmt_016x (ID resp) ++ " already expired" ++ nl)
  else
    let txt := "lease " ++ fmt_016x (ID resp) ++ " granted with TTL("
               ++ fmt_d (GrantedTTL resp) ++ "s), remaining("
               ++ fmt_d (TTL resp) ++ "s)" in
    let txt :=
      if keys then
        let ks := map (fun k => k) (Keys resp) in
        txt ++ (", attached keys(" ++ fmt_v_strings ks ++ ")")
      else txt in
    fmt_Println txt.

Definition Leases (resp : LeaseLeasesResponse) : Print :=
  fmt_Print ("found " ++ fmt_d (Z.of_nat (List.length (ll_Leases resp)))
             ++ " leases" ++ nl) ;;
  for_range (ll_Leases resp) (fun item => fmt_Print (fmt_016x (ls_ID item) ++ nl)).

Definition Alarm (resp : AlarmResponse) : Print :=
  for_range (Alarms resp) (fun e => fmt_Print (fmt_plusv_AlarmMember e ++ nl)).

Definition MemberAdd (r : MemberAddResponse) : Print :=
  let asLearner := if IsLearner (ma_Member r) then " as learner " else " " in
  fmt_Print ("Member " ++ fmt_16x (m_ID (ma_Member r)) ++ " added" ++ asLearner
             ++ "to cluster " ++ fmt_16x (ClusterId (ma_Header r)) ++ nl).

Definition MemberRemove (id : Z) (r : MemberResponse) : Print :=
  fmt_Print ("Member " ++ fmt_16x id ++ " removed from cluster "
             ++ fmt_16x (ClusterId (Header r)) ++ nl).

Definition MemberUpdate (id : Z) (r : MemberResponse) : Print :=
  fmt_Print ("Member " ++ fmt_16x id ++ " updated in cluster "
             ++ fmt_16x (ClusterId (Header r)) ++ nl).

Definition MemberPromote (id : Z) (r : MemberResponse) : Print :=
  fmt_Print ("Member " ++ fmt_16x id ++ " promoted in cluster "
             ++ fmt_16x (ClusterId (Header r)) ++ nl).

Definition MemberList (resp : MemberListResponse) : Print :=
  let rows := makeMemberListTable resp in
  for_range rows (fun row => fmt_Println (strings_Join row ", ")).

Definition EndpointHealth (hs : list epHealth) : Print :=
  for_range hs (fun h =>
    if Error h =? "" then
      fmt_Print (Ep h ++ " is healthy: successfully committed proposal: took = "
                 ++ fmt_v_Took (Took h) ++ nl)
    else
      fmt_Fprint_Stderr (Ep h ++ " is unhealthy: failed to commit proposal: "
                         ++ Error h ++ nl)).

Definition EndpointStatus (statusList : list epStatus) : Print :=
  let rows := makeEndpointStatusTable statusList in
  for_range rows (fun row => fmt_Println (strings_Join row ", ")).

Definition EndpointHashKV (hashList : list epHashKV) : Print :=
  let rows := makeEndpointHashKVTable hashList in
  for_range rows (fun row => fmt_Println (strings_Join row ", ")).

Definition MoveLeader (leader target : Z) (r : Unread) : Print :=
  fmt_Print ("Leadership transferred from " ++ ID_String leader ++ " to "
             ++ ID_String target ++ nl).

Definition DowngradeValidate (r : DowngradeResponse) : Print :=
  fmt_Print ("Downgrade validate success, cluster version " ++ Version r ++ nl).

Definition DowngradeEnable (r : DowngradeResponse) : Print :=
  fmt_Print ("Downgrade enable success, cluster version " ++ Version r ++ nl).

Definition DowngradeCancel (r : DowngradeResponse) : Print :=
  fmt_Print ("Downgrade cancel success, cluster version " ++ Version r ++ nl).

Definition RoleAdd (role : string) (r : Unread) : Print :=
  fmt_Print ("Role " ++ role ++ " created" ++ nl).

(** The closure [printRange] of [RoleGet]; it captures nothing. *)
Definition printRange (perm : Permission) : Print :=
  let sKey := Key perm in
  let sRangeEnd := RangeEnd perm in
  (if negb (sRangeEnd =? nul) then
     fmt_Print (tab ++ "[" ++ sKey ++ ", " ++ sRangeEnd ++ ")")
   else
     fmt_Print (tab ++ "[" ++ sKey ++ ", <open ended>")) ;;
  (if (GetPrefixRangeEnd sKey =? sRangeEnd) && (0 <? String.length sKey)%nat then
     fmt_Print (" (prefix " ++ sKey ++ ")")
   else skip) ;;
  fmt_Print nl.

Definition RoleGet (role : string) (r : AuthRoleGetResponse) : Print :=
  fmt_Print ("Role " ++ role ++ nl) ;;
  if (rootRole =? role) && is_nil (Perm r) then
    fmt_Println "KV Read:" ;;
    fmt_Println (tab ++ "[, <open ended>") ;;
    fmt_Println "KV Write:" ;;
    fmt_Println (tab ++ "[, <open ended>")
  else
    fmt_Println "KV Read:" ;;
    for_range (elems (Perm r)) (fun perm =>
      if Permission_Type_eqb (PermType perm) PermRead
         || Permission_Type_eqb (PermType perm) PermReadWrite then
        if (String.length (RangeEnd perm) =? 0)%nat then
          fmt_Print (tab ++ Key perm ++ nl)
        else printRange perm
      else skip) ;;
    fmt_Println "KV Write:" ;;
    for_range (elems (Perm r)) (fun perm =>
      if Permission_Type_eqb (PermType perm) PermWrite
         || Permission_Type_eqb (PermType perm) PermReadWrite then
        if (String.length (RangeEnd perm) =? 0)%nat then
          fmt_Print (tab ++ Key perm ++ nl)
        else printRange perm
      else skip).

Definition RoleList (r : AuthRoleListResponse) : Print :=
  for_range (rl_Roles r) (fun role => fmt_Print (role ++ nl)).

Definition RoleDelete (role : string) (r : Unread) : Print :=
  fmt_Print ("Role " ++ role ++ " deleted" ++ nl).

Definition RoleGrantPermission (role : string) (r : Unread) : Print :=
  fmt_Print ("Role " ++ role ++ " updated" ++ nl).

Definition RoleRevokePermission (role key end_ : string) (r : Unread) : Print :=
  if (String.length end_ =? 0)%nat then
    fmt_Print ("Permission of key " ++ key ++ " is revoked from role " ++ role ++ nl)
  else if negb (end_ =? nul) then
    fmt_Print ("Permission of range [" ++ key ++ ", " ++ end_
               ++ ") is revoked from role " ++ role ++ nl)
  else
    fmt_Print ("Permission of range [" ++ key
               ++ ", <open ended> is revoked from role " ++ role ++ nl).

Definition UserAdd (name : string) (r : Unread) : Print :=
  fmt_Print ("User " ++ name ++ " created" ++ nl).

Definition UserGet (name : string) (r : AuthUserGetResponse) : Print :=
  fmt_Print ("User: " ++ name ++ nl) ;;
  fmt_Print "Roles:" ;;
  for_range (ug_Roles r) (fun role => fmt_Print (" " ++ role)) ;;
  fmt_Print nl.

Definition UserChangePassword (r : Unread) : Print :=
  fmt_Println "Password updated".

Definition UserGrantRole (user role : string) (r : Unread) : Print :=
  fmt_Print ("Role " ++ role ++ " is granted to user " ++ user ++ nl).

Definition UserRevokeRole (user role : string) (r : Unread) : Print :=
  fmt_Print ("Role " ++ role ++ " is revoked from user " ++ user ++ nl).

Definition UserDelete (user : string) (r : Unread) : Print :=
  fmt_Print ("User " ++ user ++ " deleted" ++ nl).

Definition UserList (r : AuthUserListResponse) : Print :=
  for_range (Users r) (fun user => fmt_Print (user ++ nl)).

Definition AuthStatus (r : AuthStatusResponse) : Print :=
  fmt_Println ("Authentication Status:" ++ " " ++ fmt_v_bool (Enabled r)) ;;
  fmt_Println ("AuthRevision:" ++ " " ++ fmt_d (AuthRevision r)).

(** One formatting entry point together with its arguments. *)
Inductive Call : Type :=
| call_Del (resp : DeleteResponse)
| call_Get (resp : GetResponse)
| call_Put (r : PutResponse)
| call_Txn (resp : TxnResponse)
| call_Watch (resp : WatchResponse)
| call_Grant (resp : LeaseGrantResponse)
| call_Revoke (id : Z) (r : Unread)
| call_KeepAlive (resp : LeaseKeepAliveResponse)
| call_TimeToLive (resp : LeaseTimeToLiveResponse) (keys : bool)
| call_Leases (resp : LeaseLeasesResponse)
| call_Alarm (resp : AlarmResponse)
| call_MemberAdd (r : MemberAddResponse)
| call_MemberRemove (id : Z) (r : MemberResponse)
| call_MemberUpdate (id : Z) (r : MemberResponse)
| call_MemberPromote (id : Z) (r : MemberResponse)
| call_MemberList (resp : MemberListResponse)
| call_EndpointHealth (hs : list epHealth)
| call_EndpointStatus (statusList : list epStatus)
| call_EndpointHashKV (hashList : list epHashKV)
| call_MoveLeader (leader target : Z) (r : Unread)
| call_DowngradeValidate (r : DowngradeResponse)
| call_DowngradeEnable (r : DowngradeResponse)
| call_DowngradeCancel (r : DowngradeResponse)
| call_RoleAdd (role : string) (r : Unread)
| call_RoleGet (role : string) (r : AuthRoleGetResponse)
| call_RoleList (r : AuthRoleListResponse)
| call_RoleDelete (role : string) (r : Unread)
| call_RoleGrantPermission (role : string) (r : Unread)
| call_RoleRevokePermission (role key end_ : string) (r : Unread)
| call_UserAdd (name : string) (r : Unread)
| call_UserGet (name : string) (r : AuthUserGetResponse)
| call_UserChangePassword (r : Unread)
| call_UserGrantRole (user role : string) (r : Unread)
| call_UserRevokeRole (user role : string) (r : Unread)
| call_UserDelete (user : string) (r : Unread)
| call_UserList (r : AuthUserListResponse)
| call_AuthStatus (r : AuthStatusResponse).

(** Running an entry point. *)
Definition run (c : Call) : Print :=
  match c with
  | call_Del resp => Del resp
  | call_Get resp => Get resp
  | call_Put r => Put r
  | call_Txn resp => Txn resp
  | call_Watch resp => Watch resp
  | call_Grant resp => Grant resp
  | call_Revoke id r => Revoke id r
  | call_KeepAlive resp => KeepAlive resp
  | call_TimeToLive resp keys => TimeToLive resp keys
  | call_Leases resp => Leases resp
  | call_Alarm resp => Alarm resp
  | call_MemberAdd r => MemberAdd r
  | call_MemberRemove id r => MemberRemove id r
  | call_MemberUpdate id r => MemberUpdate id r
  | call_MemberPromote id r => MemberPromote id r
  | call_MemberList resp => MemberList resp
  | call_EndpointHealth hs => EndpointHealth hs
  | call_EndpointStatus l => EndpointStatus l
  | call_EndpointHashKV l => EndpointHashKV l
  | call_MoveLeader leader target r => MoveLeader leader target r
  | call_DowngradeValidate r => DowngradeValidate r
  | call_DowngradeEnable r => DowngradeEnable r
  | call_DowngradeCancel r => DowngradeCancel r
  | call_RoleAdd role r => RoleAdd role r
  | call_RoleGet role r => RoleGet role r
  | call_RoleList r => RoleList r
  | call_RoleDelete role r => RoleDelete role r
  | call_RoleGrantPermission role r => RoleGrantPermission role r
  | call_RoleRevokePermission role key e r => RoleRevokePermission role key e r
  | call_UserAdd name r => UserAdd name r
  | call_UserGet name r => UserGet name r
  | call_UserChangePassword r => UserChangePassword r
  | call_UserGrantRole user role r => UserGrantRole user role r
  | call_UserRevokeRole user role r => UserRevokeRole user role r
  | call_UserDelete user r => UserDelete user r
  | call_UserList r => UserList r
  | call_AuthStatus r => AuthStatus r
  end.

End Printer.

(* ------------------------------------------------------------------ *)
(** ** What the rules are expected to write *)

(** The line of a healthy endpoint and that of an unhealthy one. *)
Definition success_line {ext : External} (h : epHealth) : string :=
  Ep h ++ " is healthy: successfully committed proposal: took = "
  ++ fmt_v_Took (Took h) ++ nl.

Definition failure_line {ext : External} (h : epHealth) : string :=
  Ep h ++ " is unhealthy: failed to commit proposal: " ++ Error h ++ nl.

Definition healthy {ext : External} (h : epHealth) : bool := Error h =? "".

(** The block a transaction prints for one sub-result, after the blank
    separator line. *)
Definition sub_result_text {ext : External} (s : simplePrinter) (r : ResponseOp) : string :=
  match Response r with
  | ResponseOp_ResponseDeleteRange v => out (Del s v)
  | ResponseOp_ResponsePut v => out (Put s v)
  | ResponseOp_ResponseRange v => out (Get s v)
  | ResponseOp_unrecognized _ =>
      "unexpected response " ++ fmt_plusv_ResponseOp r ++ nl
  end.

(** The two lines of the lease time-to-live rule, and the key list. *)
Definition expired_line (id : Z) : string :=
  "lease " ++ fmt_016x id ++ " already expired" ++ nl.

Definition ttl_text (resp : LeaseTimeToLiveResponse) : string :=
  "lease " ++ fmt_016x (ID resp) ++ " granted with TTL("
  ++ fmt_d (GrantedTTL resp) ++ "s), remaining(" ++ fmt_d (TTL resp) ++ "s)".

Definition is_expired (resp : LeaseTimeToLiveResponse) : bool :=
  (GrantedTTL resp =? 0)%Z && (TTL resp =? -1)%Z.

Definition attached_keys (resp : LeaseTimeToLiveResponse) : string :=
  ", attached keys([" ++ String.concat " " (Keys resp) ++ "])".

(** The key list as the specification words it: bracketed and
    comma-separated. *)
Definition attached_keys_comma_separated (resp : LeaseTimeToLiveResponse) : string :=
  ", attached keys([" ++ String.concat ", " (Keys resp) ++ "])".

(** The range of a permission entry, and its prefix annotation. *)
Definition range_text (perm : Permission) : string :=
  if RangeEnd perm =? nul
  then "[" ++ Key perm ++ ", <open ended>"
  else "[" ++ Key perm ++ ", " ++ RangeEnd perm ++ ")".

Definition prefix_note (perm : Permission) : string :=
  " (prefix " ++ Key perm ++ ")".

(** The entry is a prefix grant: its key is not empty and its range end
    is the prefix range end of the key. *)
Definition is_prefix_grant (perm : Permission) : Prop :=
  Key perm <> "" /\ prefix_successor (Key perm) = Some (RangeEnd perm).

(** The read and the write listing of a role. *)
Definition in_read_listing (perm : Permission) : bool :=
  match PermType perm with
  | PermRead | PermReadWrite => true
  | PermWrite => false
  end.

Definition in_write_listing (perm : Permission) : bool :=
  match PermType perm with
  | PermWrite | PermReadWrite => true
  | PermRead => false
  end.

Definition entry_line (perm : Permission) : string :=
  if RangeEnd perm =? "" then tab ++ Key perm ++ nl else out (printRange perm).

Definition role_listing (role : string) (perms : list Permission) : string :=
  "Role " ++ role ++ nl
  ++ "KV Read:" ++ nl ++ cat (map entry_line (filter in_read_listing perms))
  ++ "KV Write:" ++ nl ++ cat (map entry_line (filter in_write_listing perms)).

Definition root_listing : string :=
  "Role root" ++ nl
  ++ "KV Read:" ++ nl ++ tab ++ "[, <open ended>" ++ nl
  ++ "KV Write:" ++ nl ++ tab ++ "[, <open ended>" ++ nl.

(** Two leases that are not expired, with attached keys. *)
Definition lease_with_key_named_expired : LeaseTimeToLiveResponse :=
  {| ID := 1; TTL := 3; GrantedTTL := 5; Keys := ["expired"] |}.

Definition lease_with_two_keys : LeaseTimeToLiveResponse :=
  {| ID := 1; TTL := 3; GrantedTTL := 5; Keys := ["a"; "b"] |}.

(** One listing loop of [RoleGet], for the selection [sel]. *)
Definition listing_loop (sel : Permission -> bool) (perms : list Permission) : Print :=
  for_range perms (fun perm =>
    if sel perm then
      if (String.length (RangeEnd perm) =? 0)%nat then
        fmt_Print (tab ++ Key perm ++ nl)
      else printRange perm
    else skip).

(** An action that writes to standard output only. *)
Definition stdout_only (p : Print) : Prop :=
  forall w, p w = mkWorld (Stdout w ++ out p) (Stderr w).

(** Sample collaborators, for running the rules on concrete inputs. *)
Definition sample_External : External := {|
  fmt_plusv_ResponseOp := fun _ => "response_txn:<>";
  AlarmMember := Z;
  fmt_plusv_AlarmMember := fun m => "memberID:" ++ fmt_d m;
  EventType_String := fun t => if (t =? 0)%Z then "PUT" else "DELETE";
  ID_String := fun i => hex (Z.to_N i);
  Took_t := string;
  fmt_v_Took := fun t => t;
  MemberListResponse := list (list string);
  makeMemberListTable := fun rows => rows;
  epStatus := list string;
  makeEndpointStatusTable := fun rows => rows;
  epHashKV := list string;
  makeEndpointHashKVTable := fun rows => rows
|}.

(** [whole_lines t]: the text [t] is empty or ends with a line
    terminator, so that it is made of whole lines. *)
Fixpoint whole_lines (t : string) : bool :=
  match t with
  | EmptyString => true
  | String c r =>
      match r with
      | EmptyString => Ascii.eqb c newline
      | String _ _ => whole_lines r
      end
  end.

(** An action that writes whole lines, and to standard output only. *)
Definition keeps_lines (p : Print) : Prop :=
  stdout_only p /\ whole_lines (out p) = true.

(** The entry points that go through [printKV]. *)
Definition uses_printKV {ext : External} (c : Call) : bool :=
  match c with
  | call_Del _ | call_Get _ | call_Put _ | call_Txn _ | call_Watch _ => true
  | _ => false
  end.

(** A read-write grant on every key: the empty key with the open-ended
    range end. *)
Definition whole_keyspace_grant : Permission :=
  {| PermType := PermReadWrite; Key := ""; RangeEnd := nul |}.

(** Reader of what [fmt_d] writes. *)
Definition parse_d (t : string) : option Z :=
  option_map Z.of_int (DecimalString.NilZero.int_of_string t).



(** Readers of what [hex] and [fmt_016x] write, used to tell two
    formatted ids apart. *)
Definition parse_hex (t : string) : option N :=
  option_map N.of_hex_uint (HexadecimalString.NilEmpty.uint_of_string t).

Definition parse_016x (t : string) : option Z :=
  match t with
  | String c r =>
      if Ascii.eqb c "-"
      then option_map (fun n => (- Z.of_N n)%Z) (parse_hex r)
      else option_map Z.of_N (parse_hex t)
  | EmptyString => None
  end.

(* ------------------------------------------------------------------ *)
(** ** Facts about texts *)

Section TextFacts.

Lemma str_app_nil_r (s : string) : s ++ "" = s.
Proof. induction s as [|c s IH]; simpl; [reflexivity | now rewrite IH]. Qed.

Lemma str_app_assoc (a b c : string) : (a ++ b) ++ c = a ++ (b ++ c).
Proof. induction a as [|x a IH]; simpl; [reflexivity | now rewrite IH]. Qed.

Lemma str_length_zero (a : string) : (String.length a =? 0)%nat = (a =? "").
Proof. destruct a; reflexivity. Qed.

Lemma occurs_app c a b : occurs c (a ++ b) = occurs c a || occurs c b.
Proof.
  induction a as [|x a IH]; simpl; [reflexivity|].
  now rewrite IH, orb_assoc.
Qed.

Lemma prefix_occurs c needle : occurs c needle = true ->
  forall hay, String.prefix needle hay = true -> occurs c hay = true.
Proof.
  induction needle as [|x n IH]; simpl; [discriminate|].
  intros Hc [|y hay]; [discriminate|]. simpl.
  destruct (ascii_dec x y) as [->|]; [|discriminate].
  intros Hp. apply orb_true_iff in Hc as [Hc|Hc].
  - now rewrite Hc.
  - rewrite (IH Hc hay Hp). apply orb_true_r.
Qed.

(** A substring brings all its characters with it. *)
Lemma contains_occurs c needle hay :
  occurs c needle = true -> contains needle hay = true -> occurs c hay = true.
Proof.
  intros Hc. induction hay as [|y hay IH]; simpl.
  - rewrite orb_false_r. apply (prefix_occurs c needle Hc "").
  - intros H. apply orb_true_iff in H as [H|H].
    + apply (prefix_occurs c needle Hc (String y hay) H).
    + rewrite (IH H). apply orb_true_r.
Qed.

Lemma contains_app_r needle a b :
  contains needle b = true -> contains needle (a ++ b) = true.
Proof.
  intros H. induction a as [|x a IH]; simpl; [exact H|].
  rewrite IH. apply orb_true_r.
Qed.

Lemma lines_app a b : lines (a ++ b) = lines a + lines b.
Proof. induction a as [|x a IH]; simpl; [reflexivity | rewrite IH; lia]. Qed.

Lemma lines_no_newline s : occurs newline s = false -> lines s = 0.
Proof.
  induction s as [|x s IH]; cbn [occurs lines]; [reflexivity|].
  intros H. apply orb_false_iff in H as [Hx Hs].
  rewrite Ascii.eqb_sym, Hx. cbn. auto.
Qed.

End TextFacts.

(* ------------------------------------------------------------------ *)
(** ** Facts about the streams *)

Section StreamFacts.

Lemma emit_nothing_r (w : World) : emit w nothing = w.
Proof. destruct w; unfold emit; simpl. now rewrite !str_app_nil_r. Qed.

Lemma emit_assoc (w a b : World) : emit (emit w a) b = emit w (emit a b).
Proof. unfold emit; simpl. now rewrite !str_app_assoc. Qed.

Lemma out_Print (t : string) : out (fmt_Print t) = t.
Proof. reflexivity. Qed.

Lemma appends_skip : appends skip.
Proof. intros w. unfold skip. now rewrite emit_nothing_r. Qed.

Lemma appends_Print (t : string) : appends (fmt_Print t).
Proof. intros w. unfold fmt_Print, emit; simpl. now rewrite str_app_nil_r. Qed.

Lemma appends_Fprint_Stderr (t : string) : appends (fmt_Fprint_Stderr t).
Proof. intros w. unfold fmt_Fprint_Stderr, emit; simpl. now rewrite str_app_nil_r. Qed.

Lemma appends_seq (p q : Print) : appends p -> appends q -> appends (p ;; q).
Proof.
  intros Hp Hq w. unfold seq.
  rewrite (Hq (p w)), (Hp w), emit_assoc, <- (Hq (p nothing)). reflexivity.
Qed.

Lemma appends_for_range {A : Type} (xs : list A) (body : A -> Print) :
  (forall x, appends (body x)) -> appends (for_range xs body).
Proof.
  intros Hb. induction xs as [|x xs IH]; simpl.
  - apply appends_skip.
  - apply appends_seq; [apply Hb | exact IH].
Qed.

Lemma out_seq (p q : Print) : appends q -> out (p ;; q) = out p ++ out q.
Proof. intros Hq. unfold out, seq. now rewrite (Hq (p nothing)). Qed.

Lemma out_for_range {A : Type} (xs : list A) (body : A -> Print) :
  (forall x, appends (body x)) ->
  out (for_range xs body) = cat (map (fun x => out (body x)) xs).
Proof.
  intros Hb. induction xs as [|x xs IH]; simpl; [reflexivity|].
  rewrite out_seq, IH; [reflexivity | now apply appends_for_range].
Qed.

Lemma for_range_app {A : Type} (xs ys : list A) (body : A -> Print) (w : World) :
  for_range (xs ++ ys) body w = for_range ys body (for_range xs body w).
Proof.
  revert w. induction xs as [|x xs IH]; intros w; simpl; [reflexivity|].
  unfold seq. apply IH.
Qed.

Lemma stdout_only_intro (p : Print) (t : string) :
  (forall w, p w = mkWorld (Stdout w ++ t) (Stderr w)) -> stdout_only p.
Proof.
  intros H w. unfold out. rewrite (H nothing). simpl. apply H.
Qed.

Lemma stdout_only_err (p : Print) : stdout_only p -> err p = "".
Proof. intros H. unfold err. now rewrite (H nothing). Qed.

Lemma stdout_only_appends (p : Print) : stdout_only p -> appends p.
Proof.
  intros H w. pose proof (stdout_only_err p H) as He. unfold err in He.
  rewrite (H w). unfold emit, out. now rewrite He, str_app_nil_r.
Qed.

Lemma stdout_only_skip : stdout_only skip.
Proof. apply (stdout_only_intro skip ""). intros [o e]. unfold skip. simpl. now rewrite str_app_nil_r. Qed.

Lemma stdout_only_Print (t : string) : stdout_only (fmt_Print t).
Proof. apply (stdout_only_intro _ t). reflexivity. Qed.

Lemma stdout_only_Println (t : string) : stdout_only (fmt_Println t).
Proof. apply stdout_only_Print. Qed.

Lemma stdout_only_seq (p q : Print) :
  stdout_only p -> stdout_only q -> stdout_only (p ;; q).
Proof.
  intros Hp Hq. apply (stdout_only_intro _ (out p ++ out q)). intros w.
  unfold seq. rewrite (Hq (p w)), (Hp w). simpl. now rewrite str_app_assoc.
Qed.

Lemma stdout_only_for_range {A : Type} (xs : list A) (body : A -> Print) :
  (forall x, stdout_only (body x)) -> stdout_only (for_range xs body).
Proof.
  intros Hb. induction xs as [|x xs IH]; simpl.
  - apply stdout_only_skip.
  - apply stdout_only_seq; [apply Hb | exact IH].
Qed.

(** An action that writes [t] to standard output and nothing else. *)
Lemma stdout_only_run (p : Print) (t : string) :
  stdout_only p -> out p = t -> forall w, p w = emit w (mkWorld t "").
Proof.
  intros H <- w. rewrite (H w). unfold emit. simpl. now rewrite str_app_nil_r.
Qed.

End StreamFacts.

Create HintDb printer.
#[export] Hint Resolve stdout_only_skip stdout_only_Print stdout_only_Println
  stdout_only_seq stdout_only_for_range : printer.
#[export] Hint Resolve appends_skip appends_Print appends_Fprint_Stderr
  appends_seq appends_for_range stdout_only_appends : printer.

(** One syntax-directed step towards [stdout_only]. *)
Ltac prints_step :=
  lazymatch goal with
  | |- stdout_only skip => apply stdout_only_skip
  | |- stdout_only (fmt_Print _) => apply stdout_only_Print
  | |- stdout_only (fmt_Println _) => apply stdout_only_Println
  | |- stdout_only (seq _ _) => apply stdout_only_seq
  | |- stdout_only (for_range _ _) =>
      apply stdout_only_for_range; intros; cbv beta
  | |- stdout_only (if ?b then _ else _) => destruct b
  | |- stdout_only (match ?x with _ => _ end) => destruct x
  | |- stdout_only _ => solve [auto with printer]
  end.

(** Equality of texts up to the bracketing of [++]. *)
Ltac text :=
  simpl; rewrite ?str_app_assoc; simpl; rewrite ?str_app_assoc; reflexivity.

Ltac stdout_rule := intros; cbv zeta; repeat prints_step.

(* ------------------------------------------------------------------ *)
(** ** Key/value rules and the transaction dispatcher *)

Section KeyValueRules.

Context {ext : External}.
Variable s : simplePrinter.

Lemma printKV_stdout_only (h v : bool) (kv : KeyValue) : stdout_only (printKV h v kv).
Proof. unfold printKV. stdout_rule. Qed.

Hint Resolve printKV_stdout_only : printer.

Lemma Del_stdout_only (resp : DeleteResponse) : stdout_only (Del s resp).
Proof. unfold Del. stdout_rule. Qed.

Lemma Get_stdout_only (resp : GetResponse) : stdout_only (Get s resp).
Proof. unfold Get. stdout_rule. Qed.

Lemma Put_stdout_only (r : PutResponse) : stdout_only (Put s r).
Proof. unfold Put. stdout_rule. Qed.

Hint Resolve Del_stdout_only Get_stdout_only Put_stdout_only : printer.

(** What the loop body of [Txn] writes for one sub-result. *)
Lemma Txn_body_stdout_only (r : ResponseOp) :
  stdout_only
    (fmt_Println "" ;;
     match Response r with
     | ResponseOp_ResponseDeleteRange v => Del s v
     | ResponseOp_ResponsePut v => Put s v
     | ResponseOp_ResponseRange v => Get s v
     | ResponseOp_unrecognized _ =>
         fmt_Print ("unexpected response " ++ fmt_plusv_ResponseOp r ++ nl)
     end).
Proof. stdout_rule. Qed.

Lemma Txn_stdout_only (resp : TxnResponse) : stdout_only (Txn s resp).
Proof.
  unfold Txn. apply stdout_only_seq; [stdout_rule|].
  apply stdout_only_for_range. intros r. apply Txn_body_stdout_only.
Qed.

Lemma Watch_stdout_only (resp : WatchResponse) : stdout_only (Watch s resp).
Proof. unfold Watch. stdout_rule. Qed.

(** C1.  A transaction result is printed as one line, [SUCCESS] when
    the result succeeded and [FAILURE] otherwise, followed, for each
    sub-result in the order of the result, by an empty line and then
    the output of the delete, put or get rule chosen by the tag of the
    sub-result; a sub-result of any other shape gives the line
    [unexpected response] with its raw rendering, and the sub-results
    after it are printed all the same.  Nothing goes to standard
    error. *)
Theorem Txn_dispatch (resp : TxnResponse) (w : World) :
  Txn s resp w =
  emit w (mkWorld
            ((if Succeeded resp then "SUCCESS" else "FAILURE") ++ nl
             ++ cat (map (fun r => nl ++ sub_result_text s r) (Responses resp)))
            "").
Proof.
  apply stdout_only_run; [apply Txn_stdout_only|].
  unfold Txn. rewrite out_seq.
  2:{ apply appends_for_range. intros r.
      apply stdout_only_appends, Txn_body_stdout_only. }
  rewrite out_for_range.
  2:{ intros r. apply stdout_only_appends, Txn_body_stdout_only. }
  replace (map _ (Responses resp))
    with (map (fun r => nl ++ sub_result_text s r) (Responses resp)).
  - destruct (Succeeded resp); reflexivity.
  - apply map_ext. intros r. rewrite out_seq.
    + unfold sub_result_text. destruct (Response r); reflexivity.
    + destruct (Response r); auto with printer.
Qed.

End KeyValueRules.

(* ------------------------------------------------------------------ *)
(** ** Formatted integers *)

Section NumberFacts.

Lemma only_app a s t : only a (s ++ t) = only a s && only a t.
Proof.
  induction s as [|x s IH]; simpl; [reflexivity|].
  now rewrite IH, andb_assoc.
Qed.

Lemma only_occurs a s c : only a s = true -> occurs c a = false -> occurs c s = false.
Proof.
  intros Hs Hc. induction s as [|x s IH]; simpl in *; [reflexivity|].
  apply andb_true_iff in Hs as [Hx Hs]. rewrite (IH Hs), orb_false_r.
  destruct (Ascii.eqb_spec c x) as [->|]; [congruence | reflexivity].
Qed.

Lemma only_repeat_char a c k : occurs c a = true -> only a (repeat_char c k) = true.
Proof. intros Hc. induction k as [|k IH]; simpl; [reflexivity | now rewrite Hc, IH]. Qed.

Lemma only_pad_left a c k s :
  occurs c a = true -> only a s = true -> only a (pad_left c k s) = true.
Proof.
  intros Hc Hs. unfold pad_left. now rewrite only_app, only_repeat_char, Hs.
Qed.

Lemma only_hex_digits (u : Hexadecimal.uint) :
  only number_alphabet (HexadecimalString.NilEmpty.string_of_uint u) = true.
Proof. induction u; simpl; auto. Qed.

Lemma only_hex (n : N) : only number_alphabet (hex n) = true.
Proof.
  unfold hex, HexadecimalString.NilZero.string_of_uint.
  destruct (N.to_hex_uint n); try apply only_hex_digits. reflexivity.
Qed.

Lemma only_dec_digits (u : Decimal.uint) :
  only number_alphabet (DecimalString.NilEmpty.string_of_uint u) = true.
Proof. induction u; simpl; auto. Qed.

Lemma only_dec (u : Decimal.uint) :
  only number_alphabet (DecimalString.NilZero.string_of_uint u) = true.
Proof. destruct u; first [reflexivity | apply only_dec_digits]. Qed.

Lemma only_fmt_d (n : Z) : only number_alphabet (fmt_d n) = true.
Proof.
  unfold fmt_d, DecimalString.NilZero.string_of_int.
  destruct (Z.to_int n) as [u|u]; [apply only_dec|].
  cbn [only]. rewrite only_dec. reflexivity.
Qed.

Lemma only_fmt_016x (n : Z) : only number_alphabet (fmt_016x n) = true.
Proof.
  unfold fmt_016x. destruct (n <? 0)%Z.
  - rewrite only_app, only_pad_left; auto using only_hex.
  - apply only_pad_left; auto using only_hex.
Qed.

(** A formatted integer holds no character outside the alphabet. *)
Lemma fmt_016x_free (c : ascii) (n : Z) :
  occurs c number_alphabet = false -> occurs c (fmt_016x n) = false.
Proof. apply only_occurs, only_fmt_016x. Qed.

Lemma fmt_d_free (c : ascii) (n : Z) :
  occurs c number_alphabet = false -> occurs c (fmt_d n) = false.
Proof. apply only_occurs, only_fmt_d. Qed.

End NumberFacts.

(* ------------------------------------------------------------------ *)
(** ** The lease time-to-live rule *)

Section LeaseRules.

Lemma is_expired_iff (resp : LeaseTimeToLiveResponse) :
  is_expired resp = true <-> GrantedTTL resp = 0%Z /\ TTL resp = (-1)%Z.
Proof.
  unfold is_expired. rewrite andb_true_iff, !Z.eqb_eq. reflexivity.
Qed.

Lemma is_expired_false (resp : LeaseTimeToLiveResponse) :
  ~ (GrantedTTL resp = 0%Z /\ TTL resp = (-1)%Z) -> is_expired resp = false.
Proof.
  intros H. destruct (is_expired resp) eqn:E; [|reflexivity].
  apply is_expired_iff in E. contradiction.
Qed.

Lemma TimeToLive_expired (resp : LeaseTimeToLiveResponse) (keys : bool) :
  is_expired resp = true ->
  TimeToLive resp keys = fmt_Print (expired_line (ID resp)).
Proof. intros H. unfold TimeToLive. fold (is_expired resp). now rewrite H. Qed.

Lemma TimeToLive_alive (resp : LeaseTimeToLiveResponse) (keys : bool) :
  is_expired resp = false ->
  TimeToLive resp keys =
  fmt_Print (ttl_text resp ++ (if keys then attached_keys resp else "") ++ nl).
Proof.
  intros H. unfold TimeToLive. fold (is_expired resp). rewrite H. cbv zeta.
  fold (ttl_text resp). unfold fmt_Println. f_equal.
  destruct keys; [|reflexivity].
  rewrite map_id. unfold attached_keys, fmt_v_strings.
  rewrite !str_app_assoc. simpl. rewrite !str_app_assoc. reflexivity.
Qed.

Lemma TimeToLive_stdout_only (resp : LeaseTimeToLiveResponse) (keys : bool) :
  stdout_only (TimeToLive resp keys).
Proof.
  destruct (is_expired resp) eqn:E.
  - rewrite (TimeToLive_expired _ _ E). apply stdout_only_Print.
  - rewrite (TimeToLive_alive _ _ E). apply stdout_only_Print.
Qed.

Lemma expired_line_one_line (id : Z) : lines (expired_line id) = 1.
Proof.
  unfold expired_line. rewrite !lines_app.
  rewrite (lines_no_newline (fmt_016x id)); [reflexivity|].
  now apply fmt_016x_free.
Qed.

Lemma ttl_text_free_of (c : ascii) (resp : LeaseTimeToLiveResponse) :
  occurs c number_alphabet = false ->
  occurs c "lease  granted with TTL(s), remaining(s)" = false ->
  occurs c (ttl_text resp) = false.
Proof.
  intros Hn Hc. unfold ttl_text. rewrite !occurs_app.
  rewrite (fmt_016x_free c _ Hn), !(fmt_d_free c _ Hn).
  revert Hc. simpl.
  repeat match goal with
         | |- context [Ascii.eqb c ?x] => destruct (Ascii.eqb c x); try discriminate
         end.
  reflexivity.
Qed.

Lemma ttl_text_no_expired (resp : LeaseTimeToLiveResponse) :
  contains "expired" (ttl_text resp ++ nl) = false.
Proof.
  destruct (contains "expired" (ttl_text resp ++ nl)) eqn:E; [|reflexivity].
  apply (contains_occurs "x"%char) in E; [|reflexivity].
  rewrite occurs_app, ttl_text_free_of in E by reflexivity. discriminate.
Qed.

(** C4, as amended.  When the granted TTL is zero and the remaining TTL
    is -1 the rule writes the single line [lease <id> already expired],
    in which only the lease id is interpolated, and stops.  For every
    other pair it writes one text that starts with [lease <id> granted
    with TTL(<granted>s), remaining(<remaining>s)], followed by the
    attached keys when they were asked for; without the key list the
    text holds no [expired]. *)
Theorem TimeToLive_branches (resp : LeaseTimeToLiveResponse) (keys : bool) (w : World) :
  (GrantedTTL resp = 0%Z /\ TTL resp = (-1)%Z ->
     TimeToLive resp keys w = emit w (mkWorld (expired_line (ID resp)) "")
     /\ lines (expired_line (ID resp)) = 1
     /\ contains "already expired" (expired_line (ID resp)) = true)
  /\
  (~ (GrantedTTL resp = 0%Z /\ TTL resp = (-1)%Z) ->
     TimeToLive resp keys w =
       emit w (mkWorld (ttl_text resp ++ (if keys then attached_keys resp else "") ++ nl) "")
     /\ contains "expired" (ttl_text resp ++ nl) = false).
Proof.
  split.
  - intros H. apply is_expired_iff in H. split; [|split].
    + apply stdout_only_run; [apply TimeToLive_stdout_only|].
      now rewrite (TimeToLive_expired _ _ H).
    + apply expired_line_one_line.
    + unfold expired_line. do 2 apply contains_app_r. reflexivity.
  - intros H. apply is_expired_false in H. split.
    + apply stdout_only_run; [apply TimeToLive_stdout_only|].
      now rewrite (TimeToLive_alive _ _ H).
    + apply ttl_text_no_expired.
Qed.

(** The theorem at an expired lease and at a live one. *)
Lemma TimeToLive_branches_witness :
  (out (TimeToLive {| ID := 10; TTL := -1; GrantedTTL := 0; Keys := [] |} false)
   = "lease 000000000000000a already expired" ++ nl)
  /\ (out (TimeToLive {| ID := 10; TTL := 3; GrantedTTL := 5; Keys := [] |} false)
      = "lease 000000000000000a granted with TTL(5s), remaining(3s)" ++ nl).
Proof.
  split.
  - pose proof (TimeToLive_branches
                  {| ID := 10; TTL := -1; GrantedTTL := 0; Keys := [] |} false nothing)
      as [H _].
    destruct (H (conj eq_refl eq_refl)) as [E _].
    unfold out. rewrite E. reflexivity.
  - pose proof (TimeToLive_branches
                  {| ID := 10; TTL := 3; GrantedTTL := 5; Keys := [] |} false nothing)
      as [_ H].
    destruct H as [E _]; [simpl; intros [H _]; discriminate|].
    unfold out. rewrite E. reflexivity.
Defined.

(** C4, as stated, fails: a live lease whose attached key is named
    [expired] is printed, with its keys, as a line that holds
    [expired]. *)
Lemma TimeToLive_key_named_expired :
  ~ (GrantedTTL lease_with_key_named_expired = 0%Z
     /\ TTL lease_with_key_named_expired = (-1)%Z)
  /\ out (TimeToLive lease_with_key_named_expired true)
     = "lease 0000000000000001 granted with TTL(5s), remaining(3s), attached keys([expired])" ++ nl
  /\ contains "expired" (out (TimeToLive lease_with_key_named_expired true)) = true.
Proof.
  split; [|split].
  - simpl. intros [H _]. discriminate.
  - reflexivity.
  - reflexivity.
Qed.

End LeaseRules.

(* ------------------------------------------------------------------ *)
(** ** Prefix range ends *)

Section PrefixFacts.

Lemma prefix_successor_nonempty (key e : string) :
  prefix_successor key = Some e -> e <> "".
Proof.
  destruct key as [|b rest]; simpl; [discriminate|].
  destruct (prefix_successor rest).
  - intros [= <-]. discriminate.
  - destruct (N_of_ascii b <? 255)%N; [intros [= <-] | ]; discriminate.
Qed.

(** The successor never is the open-ended sentinel. *)
Lemma prefix_successor_not_nul (key : string) :
  prefix_successor key <> Some nul.
Proof.
  destruct key as [|b rest]; simpl; [discriminate|].
  destruct (prefix_successor rest) as [e|] eqn:E.
  - intros [= _ He]. now apply (prefix_successor_nonempty rest e).
  - destruct (N_of_ascii b <? 255)%N eqn:Hb; [|discriminate].
    apply N.ltb_lt in Hb. intros [= H].
    apply (f_equal N_of_ascii) in H.
    rewrite N_ascii_embedding in H by lia. simpl in H. lia.
Qed.

Lemma all_0xFF_no_successor (key : string) :
  all_0xFF key = true <-> prefix_successor key = None.
Proof.
  induction key as [|b rest IH]; simpl; [tauto|].
  rewrite andb_true_iff, IH, N.eqb_eq.
  pose proof (N_ascii_bounded b) as Hb.
  destruct (prefix_successor rest).
  - split; [intros [_ H] | intros H]; discriminate.
  - destruct (N.ltb_spec (N_of_ascii b) 255) as [Hlt|Hge].
    + split; [intros [H _]; lia | discriminate].
    + split; [reflexivity | intros _; split; [lia | reflexivity]].
Qed.

(** On a non-empty range end the comparison of [printRange] is the
    comparison with the successor. *)
Lemma GetPrefixRangeEnd_eqb (key e : string) :
  e <> "" ->
  ((GetPrefixRangeEnd key =? e) = true <-> prefix_successor key = Some e).
Proof.
  intros He. unfold GetPrefixRangeEnd. rewrite String.eqb_eq.
  destruct (prefix_successor key).
  - split; [intros -> | intros [= ->]]; reflexivity.
  - split; [intros <-; now destruct He | discriminate].
Qed.

Lemma GetPrefixRangeEnd_not_nul (key : string) :
  (GetPrefixRangeEnd key =? nul) = false.
Proof.
  apply String.eqb_neq. intros H.
  apply (prefix_successor_not_nul key). apply GetPrefixRangeEnd_eqb.
  - discriminate.
  - now apply String.eqb_eq.
Qed.

End PrefixFacts.

(* ------------------------------------------------------------------ *)
(** ** The permission range formatter and the role listing *)

Section RoleRules.

Lemma printRange_stdout_only (perm : Permission) : stdout_only (printRange perm).
Proof. unfold printRange. stdout_rule. Qed.

Lemma printRange_out (perm : Permission) :
  out (printRange perm) =
  tab ++ range_text perm
  ++ (if (GetPrefixRangeEnd (Key perm) =? RangeEnd perm)
         && (0 <? String.length (Key perm))%nat
      then prefix_note perm else "")
  ++ nl.
Proof.
  unfold printRange, range_text, prefix_note. cbv zeta.
  destruct (RangeEnd perm =? nul);
    destruct ((GetPrefixRangeEnd (Key perm) =? RangeEnd perm)
              && (0 <? String.length (Key perm))%nat);
    unfold out, seq, fmt_Print, skip; simpl;
    rewrite ?str_app_assoc; simpl; rewrite ?str_app_assoc; reflexivity.
Qed.

Lemma printRange_run (perm : Permission) (w : World) :
  printRange perm w = emit w (mkWorld (out (printRange perm)) "").
Proof. apply stdout_only_run; [apply printRange_stdout_only | reflexivity]. Qed.

Lemma key_nonempty (key : string) : (0 <? String.length key)%nat = true <-> key <> "".
Proof.
  destruct key; cbn; split; intros H; try discriminate; try reflexivity.
  now destruct H.
Qed.

Lemma prefix_test (perm : Permission) :
  RangeEnd perm <> "" ->
  ((GetPrefixRangeEnd (Key perm) =? RangeEnd perm)
   && (0 <? String.length (Key perm))%nat = true
   <-> is_prefix_grant perm).
Proof.
  intros He. unfold is_prefix_grant.
  rewrite andb_true_iff, key_nonempty, (GetPrefixRangeEnd_eqb _ _ He). tauto.
Qed.

(** C2.  For an entry whose range end is not empty, the line carries
    the suffix [ (prefix <key>)] exactly when the key is not empty and
    the range end is the prefix range end of the key; a key made of 0xFF
    bytes only has no prefix range end and never gets the suffix. *)
Theorem printRange_prefix_note (perm : Permission) (w : World) :
  RangeEnd perm <> "" ->
  (is_prefix_grant perm ->
     printRange perm w
     = emit w (mkWorld (tab ++ range_text perm ++ prefix_note perm ++ nl) ""))
  /\ (~ is_prefix_grant perm ->
        printRange perm w = emit w (mkWorld (tab ++ range_text perm ++ nl) ""))
  /\ (all_0xFF (Key perm) = true ->
        prefix_successor (Key perm) = None /\ ~ is_prefix_grant perm).
Proof.
  intros He. pose proof (prefix_test perm He) as Ht.
  rewrite printRange_run, printRange_out.
  destruct ((GetPrefixRangeEnd (Key perm) =? RangeEnd perm)
            && (0 <? String.length (Key perm))%nat).
  - split; [reflexivity|]. split.
    + intros H. exfalso. apply H, Ht. reflexivity.
    + intros H. apply all_0xFF_no_successor in H. split; [exact H|].
      intros [_ H']. congruence.
  - split; [|split].
    + intros H. apply Ht in H. discriminate.
    + reflexivity.
    + intros H. apply all_0xFF_no_successor in H. split; [exact H|].
      intros [_ H']. congruence.
Qed.

(** The theorem at the prefix grant [a, b), at the range [a, c) and at
    a key of one 0xFF byte. *)
Lemma printRange_prefix_note_witness :
  out (printRange {| PermType := PermRead; Key := "a"; RangeEnd := "b" |})
  = tab ++ "[a, b) (prefix a)" ++ nl
  /\ out (printRange {| PermType := PermRead; Key := "a"; RangeEnd := "c" |})
     = tab ++ "[a, c)" ++ nl
  /\ ~ is_prefix_grant
       {| PermType := PermRead; Key := String "255"%char ""; RangeEnd := nul |}.
Proof.
  split; [|split].
  - destruct (printRange_prefix_note
                {| PermType := PermRead; Key := "a"; RangeEnd := "b" |} nothing)
      as [H _]; [discriminate|].
    unfold out. rewrite H; [reflexivity|]. split; [discriminate | reflexivity].
  - destruct (printRange_prefix_note
                {| PermType := PermRead; Key := "a"; RangeEnd := "c" |} nothing)
      as [_ [H _]]; [discriminate|].
    unfold out. rewrite H; [reflexivity|]. intros [_ H']. discriminate.
  - destruct (printRange_prefix_note
                {| PermType := PermRead; Key := String "255"%char ""; RangeEnd := nul |}
                nothing)
      as [_ [_ H]]; [discriminate|].
    apply H. reflexivity.
Defined.

(** C3.  When the range end is the one-byte NUL sentinel the line is
    [[<key>, <open ended>] and nothing follows it, no closing bracket
    or parenthesis; for every other range end the range is printed as
    [[<key>, <rangeEnd>)], followed by the prefix annotation or by
    nothing. *)
Theorem printRange_range_text (perm : Permission) (w : World) :
  (RangeEnd perm = nul ->
     printRange perm w
     = emit w (mkWorld (tab ++ "[" ++ Key perm ++ ", <open ended>" ++ nl) ""))
  /\ (RangeEnd perm <> nul ->
        exists note : string,
          (note = "" \/ note = prefix_note perm)
          /\ printRange perm w
             = emit w (mkWorld (tab ++ "[" ++ Key perm ++ ", " ++ RangeEnd perm
                                ++ ")" ++ note ++ nl) "")).
Proof.
  rewrite printRange_run, printRange_out. unfold range_text. split.
  - intros H. rewrite H, GetPrefixRangeEnd_not_nul. text.
  - intros H. apply String.eqb_neq in H. rewrite H.
    destruct ((GetPrefixRangeEnd (Key perm) =? RangeEnd perm)
              && (0 <? String.length (Key perm))%nat).
    + exists (prefix_note perm). split; [now right|].
      text.
    + exists "". split; [now left|].
      text.
Qed.

(** The theorem at an open-ended range and at a bounded one. *)
Lemma printRange_range_text_witness :
  out (printRange {| PermType := PermRead; Key := "a"; RangeEnd := nul |})
  = tab ++ "[a, <open ended>" ++ nl
  /\ exists note : string,
       (note = "" \/ note = " (prefix a)")
       /\ out (printRange {| PermType := PermRead; Key := "a"; RangeEnd := "z" |})
          = tab ++ "[a, z)" ++ note ++ nl.
Proof.
  split.
  - destruct (printRange_range_text
                {| PermType := PermRead; Key := "a"; RangeEnd := nul |} nothing)
      as [H _].
    unfold out. rewrite H; reflexivity.
  - destruct (printRange_range_text
                {| PermType := PermRead; Key := "a"; RangeEnd := "z" |} nothing)
      as [_ H].
    destruct H as [note [Hn H]]; [discriminate|].
    exists note. split; [exact Hn|]. unfold out. rewrite H. reflexivity.
Defined.

End RoleRules.

Section RoleListing.

Lemma for_range_ext {A : Type} (xs : list A) (f g : A -> Print) :
  (forall x, f x = g x) -> for_range xs f = for_range xs g.
Proof.
  intros H. induction xs as [|x xs IH]; simpl; [reflexivity|].
  now rewrite H, IH.
Qed.

Lemma listing_loop_stdout_only sel perms : stdout_only (listing_loop sel perms).
Proof.
  unfold listing_loop. apply stdout_only_for_range. intros perm.
  destruct (sel perm); [|apply stdout_only_skip].
  destruct (String.length (RangeEnd perm) =? 0)%nat;
    [apply stdout_only_Print | apply printRange_stdout_only].
Qed.

Lemma listing_loop_out sel perms :
  out (listing_loop sel perms) = cat (map entry_line (filter sel perms)).
Proof.
  induction perms as [|perm perms IH]; [reflexivity|].
  unfold listing_loop. cbn [for_range filter].
  rewrite out_seq by apply stdout_only_appends, listing_loop_stdout_only.
  fold (listing_loop sel perms). rewrite IH.
  destruct (sel perm); [|reflexivity].
  cbn [map cat]. f_equal. unfold entry_line.
  rewrite str_length_zero. now destruct (RangeEnd perm =? "").
Qed.

Lemma read_selection (perm : Permission) :
  Permission_Type_eqb (PermType perm) PermRead
  || Permission_Type_eqb (PermType perm) PermReadWrite = in_read_listing perm.
Proof. unfold in_read_listing. now destruct (PermType perm). Qed.

Lemma write_selection (perm : Permission) :
  Permission_Type_eqb (PermType perm) PermWrite
  || Permission_Type_eqb (PermType perm) PermReadWrite = in_write_listing perm.
Proof. unfold in_write_listing. now destruct (PermType perm). Qed.

(** [RoleGet] with its two loops named. *)
Lemma RoleGet_unfold (role : string) (r : AuthRoleGetResponse) :
  RoleGet role r =
  (fmt_Print ("Role " ++ role ++ nl) ;;
   if (rootRole =? role) && is_nil (Perm r) then
     fmt_Println "KV Read:" ;;
     fmt_Println (tab ++ "[, <open ended>") ;;
     fmt_Println "KV Write:" ;;
     fmt_Println (tab ++ "[, <open ended>")
   else
     fmt_Println "KV Read:" ;;
     listing_loop in_read_listing (elems (Perm r)) ;;
     fmt_Println "KV Write:" ;;
     listing_loop in_write_listing (elems (Perm r))).
Proof.
  unfold RoleGet, listing_loop.
  destruct ((rootRole =? role) && is_nil (Perm r)); [reflexivity|].
  do 2 f_equal.
  rewrite (for_range_ext (elems (Perm r)) _
             (fun perm =>
                if in_read_listing perm then
                  if (String.length (RangeEnd perm) =? 0)%nat
                  then fmt_Print (tab ++ Key perm ++ nl) else printRange perm
                else skip))
    by (intros perm; now rewrite read_selection).
  do 2 f_equal.
  apply for_range_ext. intros perm. now rewrite write_selection.
Qed.

Lemma RoleGet_stdout_only (role : string) (r : AuthRoleGetResponse) :
  stdout_only (RoleGet role r).
Proof.
  rewrite RoleGet_unfold.
  pose proof listing_loop_stdout_only.
  stdout_rule.
Qed.

Lemma RoleGet_listing_out (role : string) (r : AuthRoleGetResponse) :
  (rootRole =? role) && is_nil (Perm r) = false ->
  out (RoleGet role r) = role_listing role (elems (Perm r)).
Proof.
  intros H. rewrite RoleGet_unfold, H.
  pose proof listing_loop_stdout_only as Hl.
  rewrite !out_seq by auto 8 with printer.
  rewrite !listing_loop_out. unfold role_listing. text.
Qed.

Lemma RoleGet_root_out (r : AuthRoleGetResponse) :
  Perm r = None -> out (RoleGet rootRole r) = root_listing.
Proof. intros H. unfold RoleGet. rewrite H. reflexivity. Qed.

(** C8, as amended.  Unless the role is [root] and the permission list
    is nil, the read listing holds the entries of kind Read or
    ReadWrite and the write listing those of kind Write or ReadWrite,
    both in the order of the permission list; an entry with an empty
    range end is its bare key on a line, any other entry is what the
    range formatter prints for it. *)
Theorem RoleGet_listings (role : string) (r : AuthRoleGetResponse) (w : World) :
  (rootRole =? role) && is_nil (Perm r) = false ->
  RoleGet role r w =
    emit w (mkWorld
              ("Role " ++ role ++ nl
               ++ "KV Read:" ++ nl
               ++ cat (map entry_line (filter in_read_listing (elems (Perm r))))
               ++ "KV Write:" ++ nl
               ++ cat (map entry_line (filter in_write_listing (elems (Perm r)))))
              "")
  /\ (forall perm, in_read_listing perm = true <->
                   PermType perm = PermRead \/ PermType perm = PermReadWrite)
  /\ (forall perm, in_write_listing perm = true <->
                   PermType perm = PermWrite \/ PermType perm = PermReadWrite)
  /\ (forall perm, RangeEnd perm = "" -> entry_line perm = tab ++ Key perm ++ nl)
  /\ (forall perm, RangeEnd perm <> "" -> entry_line perm = out (printRange perm)).
Proof.
  intros H. split; [|split; [|split; [|split]]].
  - apply stdout_only_run; [apply RoleGet_stdout_only|].
    now rewrite RoleGet_listing_out.
  - intros perm. unfold in_read_listing.
    destruct (PermType perm); split; intros K; auto; try discriminate;
      destruct K; discriminate.
  - intros perm. unfold in_write_listing.
    destruct (PermType perm); split; intros K; auto; try discriminate;
      destruct K; discriminate.
  - intros perm E. unfold entry_line. now rewrite E.
  - intros perm E. unfold entry_line. apply String.eqb_neq in E. now rewrite E.
Qed.

(** The theorem at a role with a read key, a write range and a
    read-write prefix. *)
Lemma RoleGet_listings_witness :
  out (RoleGet "dev"
         {| Perm := Some [ {| PermType := PermWrite; Key := "k"; RangeEnd := "m" |};
                           {| PermType := PermRead; Key := "a"; RangeEnd := "" |};
                           {| PermType := PermReadWrite; Key := "p"; RangeEnd := "q" |} ] |})
  = "Role dev" ++ nl
    ++ "KV Read:" ++ nl
    ++ tab ++ "a" ++ nl
    ++ tab ++ "[p, q) (prefix p)" ++ nl
    ++ "KV Write:" ++ nl
    ++ tab ++ "[k, m)" ++ nl
    ++ tab ++ "[p, q) (prefix p)" ++ nl.
Proof.
  unfold out.
  rewrite (proj1 (RoleGet_listings "dev" _ nothing eq_refl)).
  reflexivity.
Defined.

(** C8, as stated, fails for the role [root] with a nil permission
    list: the list has no entry, and yet each listing holds the line
    [[, <open ended>]; the text is not the listing of the entries. *)
Lemma RoleGet_root_nil_lists_no_entry :
  elems (Perm {| Perm := None |}) = []
  /\ filter in_read_listing (elems (Perm {| Perm := None |})) = []
  /\ filter in_write_listing (elems (Perm {| Perm := None |})) = []
  /\ out (RoleGet "root" {| Perm := None |})
     = "Role root" ++ nl
       ++ "KV Read:" ++ nl ++ tab ++ "[, <open ended>" ++ nl
       ++ "KV Write:" ++ nl ++ tab ++ "[, <open ended>" ++ nl
  /\ out (RoleGet "root" {| Perm := None |})
     <> "Role root" ++ nl
        ++ "KV Read:" ++ nl
        ++ cat (map entry_line
                  (filter in_read_listing (elems (Perm {| Perm := None |}))))
        ++ "KV Write:" ++ nl
        ++ cat (map entry_line
                  (filter in_write_listing (elems (Perm {| Perm := None |})))).
Proof. repeat split. vm_compute. discriminate. Qed.

(** C10.  For the role [root] with a nil permission list the rule
    prints the role line and, under [KV Read:] and under [KV Write:],
    the line [[, <open ended>], whatever else the response holds; for
    [root] with a permission list that is not nil, and for every other
    role, it prints the listings of the entries. *)
Theorem RoleGet_root (role : string) (r : AuthRoleGetResponse) (w : World) :
  (role = "root" /\ Perm r = None ->
     RoleGet role r w = emit w (mkWorld root_listing ""))
  /\ (~ (role = "root" /\ Perm r = None) ->
        RoleGet role r w = emit w (mkWorld (role_listing role (elems (Perm r))) "")).
Proof.
  split.
  - intros [-> Hp]. apply stdout_only_run; [apply RoleGet_stdout_only|].
    now apply RoleGet_root_out.
  - intros H. apply stdout_only_run; [apply RoleGet_stdout_only|].
    apply RoleGet_listing_out. apply andb_false_iff.
    destruct (String.eqb_spec rootRole role) as [E|E]; [|now left].
    right. destruct (Perm r) eqn:Hp; [reflexivity|].
    exfalso. apply H. split; [now rewrite <- E | reflexivity].
Qed.

(** The theorem at [root] without permissions, at [root] with an empty
    list that is not nil, and at another role without permissions. *)
Lemma RoleGet_root_witness :
  out (RoleGet "root" {| Perm := None |})
  = "Role root" ++ nl ++ "KV Read:" ++ nl ++ tab ++ "[, <open ended>" ++ nl
    ++ "KV Write:" ++ nl ++ tab ++ "[, <open ended>" ++ nl
  /\ out (RoleGet "root" {| Perm := Some [] |})
     = "Role root" ++ nl ++ "KV Read:" ++ nl ++ "KV Write:" ++ nl
  /\ out (RoleGet "dev" {| Perm := None |})
     = "Role dev" ++ nl ++ "KV Read:" ++ nl ++ "KV Write:" ++ nl.
Proof.
  unfold out. split; [|split].
  - rewrite (proj1 (RoleGet_root "root" {| Perm := None |} nothing) (conj eq_refl eq_refl)).
    reflexivity.
  - rewrite (proj2 (RoleGet_root "root" {| Perm := Some [] |} nothing));
      [reflexivity | intros [_ H]; discriminate].
  - rewrite (proj2 (RoleGet_root "dev" {| Perm := None |} nothing));
      [reflexivity | intros [H _]; discriminate].
Defined.

End RoleListing.

(* ------------------------------------------------------------------ *)
(** ** Role and user administration *)

Section AdminRules.

Variables (role user key end_ : string) (r : Unread).

Lemma RoleRevokePermission_stdout_only :
  stdout_only (RoleRevokePermission role key end_ r).
Proof. unfold RoleRevokePermission. stdout_rule. Qed.

(** C5, as amended.  Creating, deleting and updating a role, creating
    and deleting a user and changing a password each write one text
    made of a fixed template around the role or user name (none for the
    password); granting and revoking a role of a user interpolate the
    role and the user.  Revoking a permission of a role is the
    exception: it chooses among three templates by the range end and
    interpolates the key and the range end besides the role. *)
Theorem admin_rules_templates (w : World) :
  RoleAdd role r w = emit w (mkWorld ("Role " ++ role ++ " created" ++ nl) "")
  /\ RoleDelete role r w = emit w (mkWorld ("Role " ++ role ++ " deleted" ++ nl) "")
  /\ RoleGrantPermission role r w
     = emit w (mkWorld ("Role " ++ role ++ " updated" ++ nl) "")
  /\ UserAdd user r w = emit w (mkWorld ("User " ++ user ++ " created" ++ nl) "")
  /\ UserDelete user r w = emit w (mkWorld ("User " ++ user ++ " deleted" ++ nl) "")
  /\ UserChangePassword r w = emit w (mkWorld ("Password updated" ++ nl) "")
  /\ UserGrantRole user role r w
     = emit w (mkWorld ("Role " ++ role ++ " is granted to user " ++ user ++ nl) "")
  /\ UserRevokeRole user role r w
     = emit w (mkWorld ("Role " ++ role ++ " is revoked from user " ++ user ++ nl) "")
  /\ RoleRevokePermission role key end_ r w
     = emit w (mkWorld
                 (if end_ =? "" then
                    "Permission of key " ++ key ++ " is revoked from role " ++ role ++ nl
                  else if end_ =? nul then
                    "Permission of range [" ++ key
                    ++ ", <open ended> is revoked from role " ++ role ++ nl
                  else
                    "Permission of range [" ++ key ++ ", " ++ end_
                    ++ ") is revoked from role " ++ role ++ nl)
                 "").
Proof.
  repeat split;
    try (apply stdout_only_run; [apply stdout_only_Print | reflexivity]).
  apply stdout_only_run; [apply RoleRevokePermission_stdout_only|].
  unfold RoleRevokePermission. rewrite str_length_zero.
  destruct (end_ =? ""); [reflexivity|].
  destruct (end_ =? nul); reflexivity.
Qed.

End AdminRules.

Section AdminRulesExamples.

(** C5, as stated, fails at the revocation of a permission: with the
    same role [r] and the same key [k] the three range ends give three
    different texts, and the key and the range end are part of them. *)
Lemma RoleRevokePermission_three_templates :
  out (RoleRevokePermission "r" "k" "" tt)
  = "Permission of key k is revoked from role r" ++ nl
  /\ out (RoleRevokePermission "r" "k" "z" tt)
     = "Permission of range [k, z) is revoked from role r" ++ nl
  /\ out (RoleRevokePermission "r" "k" nul tt)
     = "Permission of range [k, <open ended> is revoked from role r" ++ nl
  /\ out (RoleRevokePermission "r" "k" "" tt)
     <> out (RoleRevokePermission "r" "k" "z" tt).
Proof. repeat split. discriminate. Qed.

End AdminRulesExamples.

(* ------------------------------------------------------------------ *)
(** ** All the rules: health checks, the error stream, repeated runs *)

Section AllRules.

Context {ext : External}.
Variable s : simplePrinter.

Hint Resolve printKV_stdout_only Del_stdout_only Get_stdout_only
  Put_stdout_only Txn_stdout_only Watch_stdout_only TimeToLive_stdout_only
  RoleGet_stdout_only RoleRevokePermission_stdout_only : printer.

Lemma EndpointHealth_one (h : epHealth) (w : World) :
  EndpointHealth [h] w =
  if healthy h
  then mkWorld (Stdout w ++ success_line h) (Stderr w)
  else mkWorld (Stdout w) (Stderr w ++ failure_line h).
Proof.
  unfold EndpointHealth, healthy. cbn [for_range]. unfold seq, skip.
  destruct (Error h =? ""); reflexivity.
Qed.

Lemma EndpointHealth_app (hs1 hs2 : list epHealth) (w : World) :
  EndpointHealth (hs1 ++ hs2) w = EndpointHealth hs2 (EndpointHealth hs1 w).
Proof. apply for_range_app. Qed.

Lemma EndpointHealth_split (hs : list epHealth) (w : World) :
  EndpointHealth hs w =
  mkWorld (Stdout w ++ cat (map success_line (filter healthy hs)))
          (Stderr w ++ cat (map failure_line (filter (fun h => negb (healthy h)) hs))).
Proof.
  revert w. induction hs as [|h hs IH]; intros w.
  - destruct w. unfold EndpointHealth. simpl. unfold skip.
    now rewrite !str_app_nil_r.
  - change (h :: hs) with ([h] ++ hs)%list.
    rewrite EndpointHealth_app, IH, EndpointHealth_one.
    cbn [filter app]. destruct (healthy h); cbn [negb map cat Stdout Stderr];
      now rewrite str_app_assoc.
Qed.

Lemma EndpointHealth_appends (hs : list epHealth) : appends (EndpointHealth hs).
Proof.
  unfold EndpointHealth. apply appends_for_range. intros h.
  destruct (Error h =? ""); auto with printer.
Qed.

(** Every entry point but the health check writes to standard output
    only. *)
Lemma run_stdout_only (c : Call) :
  match c with
  | call_EndpointHealth _ => True
  | _ => stdout_only (run s c)
  end.
Proof.
  destruct c; cbn [run]; try exact I; auto with printer;
    match goal with
    | |- stdout_only (?f _ _ _ _) => unfold f
    | |- stdout_only (?f _ _ _) => unfold f
    | |- stdout_only (?f _ _) => unfold f
    | |- stdout_only (?f _) => unfold f
    end; stdout_rule.
Qed.

Lemma run_appends (c : Call) : appends (run s c).
Proof.
  pose proof (run_stdout_only c) as H.
  destruct c; try (apply stdout_only_appends; exact H).
  apply EndpointHealth_appends.
Qed.

(** C7.  In a health-check batch an endpoint without error text adds
    its success line, with the elapsed time, to standard output and
    nothing to standard error; an endpoint with an error text adds its
    failure line, with that text, to standard error and nothing to
    standard output.  A batch is printed endpoint by endpoint, so the
    stream of one endpoint does not depend on the others.  No other
    entry point writes to standard error. *)
Theorem EndpointHealth_routing :
  (forall (h : epHealth) (w : World),
      EndpointHealth [h] w =
      if Error h =? ""
      then mkWorld (Stdout w ++ success_line h) (Stderr w)
      else mkWorld (Stdout w) (Stderr w ++ failure_line h))
  /\ (forall (hs1 hs2 : list epHealth) (w : World),
         EndpointHealth (hs1 ++ hs2) w = EndpointHealth hs2 (EndpointHealth hs1 w))
  /\ (forall (hs : list epHealth) (w : World),
         EndpointHealth hs w =
         mkWorld (Stdout w ++ cat (map success_line (filter healthy hs)))
                 (Stderr w
                  ++ cat (map failure_line (filter (fun h => negb (healthy h)) hs))))
  /\ (forall (c : Call) (w : World),
         Stderr (run s c w) =
         Stderr w
         ++ match c with
            | call_EndpointHealth hs =>
                cat (map failure_line (filter (fun h => negb (healthy h)) hs))
            | _ => ""
            end).
Proof.
  split; [exact EndpointHealth_one|].
  split; [exact EndpointHealth_app|].
  split; [exact EndpointHealth_split|].
  intros c w. pose proof (run_stdout_only c) as H.
  destruct c;
    try (rewrite (H w); cbn [Stderr]; now rewrite str_app_nil_r).
  cbn [run]. now rewrite EndpointHealth_split.
Qed.

(** Every entry point is append-only: whatever the streams hold, a run
    adds to them the text it writes on empty streams, and a second run
    adds it again.  The collaborators are functions here, so this says
    nothing of what they, or the Go runtime, may vary from one call to
    the next. *)
Lemma run_twice (c : Call) (w : World) :
  run s c w = emit w (run s c nothing)
  /\ run s c (run s c w) = emit (emit w (run s c nothing)) (run s c nothing).
Proof.
  pose proof (run_appends c) as H. split.
  - apply H.
  - rewrite (H (run s c w)), (H w). reflexivity.
Qed.

End AllRules.

(* ------------------------------------------------------------------ *)
(** ** The attached keys of a lease *)

Section AttachedKeys.

Context {ext : External}.

(** C6, as amended.  For a lease that is not expired and a caller who
    asked for the keys, the rule appends [, attached keys([k1 k2 ...])]:
    the keys as they are, between brackets and separated by one space.
    The text is the same under every configuration of the printer, the
    hex flag included. *)
Theorem TimeToLive_attached_keys
  (s1 s2 : simplePrinter) (resp : LeaseTimeToLiveResponse) (w : World) :
  ~ (GrantedTTL resp = 0%Z /\ TTL resp = (-1)%Z) ->
  run s1 (call_TimeToLive resp true) w =
    emit w (mkWorld
              (ttl_text resp
               ++ ", attached keys([" ++ String.concat " " (Keys resp) ++ "])" ++ nl)
              "")
  /\ run s2 (call_TimeToLive resp true) w = run s1 (call_TimeToLive resp true) w.
Proof.
  intros H. split; [|reflexivity]. cbn [run].
  apply stdout_only_run; [apply TimeToLive_stdout_only|].
  rewrite (TimeToLive_alive _ _ (is_expired_false _ H)).
  unfold attached_keys. rewrite out_Print. text.
Qed.

End AttachedKeys.

Section Examples.

(** The theorem at a lease with the keys [a] and [b], in hex mode and
    in raw mode. *)
Lemma TimeToLive_attached_keys_witness :
  Stdout (@run sample_External {| isHex := true; valueOnly := false |}
            (call_TimeToLive lease_with_two_keys true) nothing)
  = "lease 0000000000000001 granted with TTL(5s), remaining(3s), attached keys([a b])"
    ++ nl
  /\ @run sample_External {| isHex := false; valueOnly := false |}
       (call_TimeToLive lease_with_two_keys true) nothing
     = @run sample_External {| isHex := true; valueOnly := false |}
         (call_TimeToLive lease_with_two_keys true) nothing.
Proof.
  destruct (@TimeToLive_attached_keys sample_External
              {| isHex := true; valueOnly := false |}
              {| isHex := false; valueOnly := false |}
              lease_with_two_keys nothing) as [H1 H2].
  - simpl. intros [H _]. discriminate.
  - split; [rewrite H1; reflexivity | exact H2].
Defined.

(** C6, as stated, fails: the keys [a] and [b] are printed as [[a b]],
    separated by a space; the text is not the comma-separated one and
    the key list holds no comma. *)
Lemma TimeToLive_keys_not_comma_separated :
  ~ (GrantedTTL lease_with_two_keys = 0%Z /\ TTL lease_with_two_keys = (-1)%Z)
  /\ out (TimeToLive lease_with_two_keys true)
     = "lease 0000000000000001 granted with TTL(5s), remaining(3s), attached keys([a b])"
       ++ nl
  /\ out (TimeToLive lease_with_two_keys true)
     <> ttl_text lease_with_two_keys
        ++ attached_keys_comma_separated lease_with_two_keys ++ nl
  /\ occurs ","%char (fmt_v_strings (Keys lease_with_two_keys)) = false.
Proof.
  split; [|split; [|split]].
  - simpl. intros [H _]. discriminate.
  - reflexivity.
  - vm_compute. discriminate.
  - reflexivity.
Qed.

(** A mixed health-check batch: one line on each stream. *)
Example EndpointHealth_mixed_batch :
  @EndpointHealth sample_External
    [ @Build_epHealth sample_External "10.0.0.1:2379" "2.5ms" "";
      @Build_epHealth sample_External "10.0.0.2:2379" "5s" "context deadline exceeded" ]
    nothing
  = mkWorld
      ("10.0.0.1:2379 is healthy: successfully committed proposal: took = 2.5ms" ++ nl)
      ("10.0.0.2:2379 is unhealthy: failed to commit proposal: context deadline exceeded"
       ++ nl).
Proof. reflexivity. Qed.

(** A transaction with a put, an unrecognized sub-result and a delete. *)
Example Txn_with_unrecognized :
  out (@Txn sample_External {| isHex := false; valueOnly := false |}
         {| Succeeded := false;
            Responses :=
              [ {| Response := ResponseOp_ResponsePut {| PrevKv := None |} |};
                {| Response := ResponseOp_unrecognized 4 |};
                {| Response :=
                     ResponseOp_ResponseDeleteRange
                       {| Deleted := 1;
                          PrevKvs := [ {| kv_Key := "k"; kv_Value := "v" |} ] |} |} ] |})
  = "FAILURE" ++ nl
    ++ nl ++ "OK" ++ nl
    ++ nl ++ "unexpected response response_txn:<>" ++ nl
    ++ nl ++ "1" ++ nl ++ "k" ++ nl ++ "v" ++ nl.
Proof. reflexivity. Qed.

End Examples.

(* ------------------------------------------------------------------ *)
(** ** More facts about texts: lengths, framing by lines *)

Section LineFacts.

Lemma str_length_app (a b : string) :
  String.length (a ++ b) = String.length a + String.length b.
Proof. induction a as [|x a IH]; simpl; [reflexivity | now rewrite IH]. Qed.

Lemma str_app_inv_head (a b c : string) : a ++ b = a ++ c -> b = c.
Proof.
  induction a as [|x a IH]; cbn [append]; intros E; [exact E | injection E; auto].
Qed.

Lemma str_app_inv_tail (a b c : string) : a ++ c = b ++ c -> a = b.
Proof.
  revert b. induction a as [|x a IH]; intros [|y b] E; cbn [append] in E.
  - reflexivity.
  - apply (f_equal String.length) in E. cbn [String.length] in E.
    rewrite str_length_app in E. lia.
  - apply (f_equal String.length) in E. cbn [String.length] in E.
    rewrite str_length_app in E. lia.
  - injection E as -> E. f_equal. now apply IH.
Qed.

(** Two texts without line terminator are cut apart by the first one. *)
Lemma first_line_inj (a1 a2 b1 b2 : string) :
  occurs newline a1 = false -> occurs newline a2 = false ->
  a1 ++ nl ++ b1 = a2 ++ nl ++ b2 -> a1 = a2 /\ b1 = b2.
Proof.
  revert a2. induction a1 as [|x a1 IH]; intros [|y a2] H1 H2 E;
    cbn [append nl occurs] in *.
  - injection E as E. now split.
  - injection E as <- _. rewrite Ascii.eqb_refl in H2. discriminate.
  - injection E as -> _. rewrite Ascii.eqb_refl in H1. discriminate.
  - injection E as -> E.
    apply orb_false_iff in H1 as [_ H1]. apply orb_false_iff in H2 as [_ H2].
    destruct (IH a2 H1 H2 E) as [-> ->]. now split.
Qed.

(** A list of lines can be read back from their concatenation. *)
Lemma lines_inj (l1 l2 : list string) :
  (forall t, In t l1 -> occurs newline t = false) ->
  (forall t, In t l2 -> occurs newline t = false) ->
  cat (map (fun t => t ++ nl) l1) = cat (map (fun t => t ++ nl) l2) -> l1 = l2.
Proof.
  revert l2. induction l1 as [|t1 l1 IH]; intros [|t2 l2] H1 H2 E; cbn [map cat] in E.
  - reflexivity.
  - apply (f_equal String.length) in E. rewrite !str_length_app in E.
    cbn in E. lia.
  - apply (f_equal String.length) in E. rewrite !str_length_app in E.
    cbn in E. lia.
  - rewrite !str_app_assoc in E.
    apply first_line_inj in E as [-> E]; [| apply H1 | apply H2]; try now left.
    f_equal. apply IH; [| | exact E]; intros t Ht; [apply H1 | apply H2]; now right.
Qed.

Lemma lines_line (t : string) : occurs newline t = false -> lines (t ++ nl) = 1.
Proof. intros H. rewrite lines_app, (lines_no_newline t H). reflexivity. Qed.

Lemma lines_cat_map {A : Type} (f : A -> string) (l : list A) :
  (forall x, In x l -> lines (f x) = 1) -> lines (cat (map f l)) = List.length l.
Proof.
  induction l as [|x l IH]; intros H; cbn [map cat lines List.length]; [reflexivity|].
  rewrite lines_app, H, IH; [reflexivity | | now left].
  intros y Hy. apply H. now right.
Qed.

Lemma whole_lines_line (t : string) : whole_lines (t ++ nl) = true.
Proof.
  induction t as [|c t IH]; [reflexivity|].
  cbn [append whole_lines]. destruct (t ++ nl) eqn:E; [|exact IH].
  destruct t; discriminate.
Qed.

Lemma whole_lines_app (a b : string) :
  whole_lines a = true -> whole_lines b = true -> whole_lines (a ++ b) = true.
Proof.
  intros Ha Hb. induction a as [|c a IH]; [exact Hb|].
  cbn [append whole_lines] in *. destruct a as [|c' a].
  - cbn [append]. now destruct b.
  - cbn [append] in *. now apply IH.
Qed.

Lemma whole_lines_cat (l : list string) :
  (forall t, In t l -> whole_lines t = true) -> whole_lines (cat l) = true.
Proof.
  induction l as [|t l IH]; intros H; cbn [cat]; [reflexivity|].
  apply whole_lines_app; [apply H; now left | apply IH; intros u Hu; apply H; now right].
Qed.

Lemma concat_sep_split (sep a b : string) (rest : list string) :
  String.concat sep ((a ++ sep ++ b) :: rest) = String.concat sep (a :: b :: rest).
Proof. destruct rest; cbn [String.concat]; now rewrite ?str_app_assoc. Qed.

End LineFacts.

(* ------------------------------------------------------------------ *)
(** ** Width and read-back of formatted ids *)

Section IdFacts.

Lemma of_hex_uint_acc_bounds (l : Hexadecimal.uint) : forall acc : positive,
  (Z.pos acc * 16 ^ Z.of_nat (Hexadecimal.nb_digits l)
   <= Z.pos (Pos.of_hex_uint_acc l acc)
   < (Z.pos acc + 1) * 16 ^ Z.of_nat (Hexadecimal.nb_digits l))%Z.
Proof.
  induction l; intros acc; cbn [Pos.of_hex_uint_acc Hexadecimal.nb_digits];
    try (rewrite Z.pow_0_r; lia);
    rewrite Nat2Z.inj_succ, Z.pow_succ_r by lia;
    match goal with
    | |- context [Pos.of_hex_uint_acc l ?a] => specialize (IHl a)
    end;
    assert (0 < 16 ^ Z.of_nat (Hexadecimal.nb_digits l))%Z
      by (apply Z.pow_pos_nonneg; lia);
    nia.
Qed.

Lemma length_hex_digits (d : Hexadecimal.uint) :
  String.length (HexadecimalString.NilEmpty.string_of_uint d) = Hexadecimal.nb_digits d.
Proof. induction d; simpl; congruence. Qed.

Lemma to_hex_uint_normal (p : positive) :
  Hexadecimal.unorm (Pos.to_hex_uint p) = Pos.to_hex_uint p.
Proof.
  rewrite <- (HexadecimalPos.Unsigned.to_of (Pos.to_hex_uint p)).
  now rewrite HexadecimalPos.Unsigned.of_to.
Qed.

(** The first digit of a positive number is not zero. *)
Lemma to_hex_uint_head (p : positive) :
  Pos.to_hex_uint p <> Hexadecimal.Nil
  /\ forall l, Pos.to_hex_uint p <> Hexadecimal.D0 l.
Proof.
  split; [apply HexadecimalPos.Unsigned.to_uint_nonnil|].
  intros l E. pose proof (to_hex_uint_normal p) as Hn.
  pose proof (HexadecimalPos.Unsigned.to_uint_nonzero p) as Hz.
  unfold Hexadecimal.unorm in Hn.
  destruct (Hexadecimal.nzhead (Pos.to_hex_uint p)) eqn:Hh;
    try (now apply Hz); rewrite <- Hn in E; try discriminate.
  injection E as <-.
  now apply (HexadecimalFacts.nzhead_nonzero (Pos.to_hex_uint p) u).
Qed.

Lemma hex_digits_bounds (p : positive) :
  (16 ^ (Z.of_nat (Hexadecimal.nb_digits (Pos.to_hex_uint p)) - 1)
   <= Z.pos p
   < 16 ^ Z.of_nat (Hexadecimal.nb_digits (Pos.to_hex_uint p)))%Z.
Proof.
  pose proof (HexadecimalPos.Unsigned.of_to p) as Hv.
  destruct (to_hex_uint_head p) as [Hnil H0].
  destruct (Pos.to_hex_uint p) as [|l|l|l|l|l|l|l|l|l|l|l|l|l|l|l|l] eqn:E;
    [now destruct Hnil | now destruct (H0 l) | ..];
    cbn [Pos.of_hex_uint Hexadecimal.nb_digits] in *;
    injection Hv as Hv;
    match type of Hv with
    | Pos.of_hex_uint_acc l ?a = p =>
        pose proof (of_hex_uint_acc_bounds l a) as Hb; rewrite Hv in Hb
    end;
    rewrite Nat2Z.inj_succ, Z.pow_succ_r by lia;
    replace (Z.succ (Z.of_nat (Hexadecimal.nb_digits l)) - 1)%Z
      with (Z.of_nat (Hexadecimal.nb_digits l)) by lia;
    assert (0 < 16 ^ Z.of_nat (Hexadecimal.nb_digits l))%Z
      by (apply Z.pow_pos_nonneg; lia);
    nia.
Qed.

Lemma length_hex_pos (p : positive) :
  String.length (hex (N.pos p)) = Hexadecimal.nb_digits (Pos.to_hex_uint p).
Proof.
  unfold hex, HexadecimalString.NilZero.string_of_uint. cbn [N.to_hex_uint].
  destruct (to_hex_uint_head p) as [Hnil _].
  rewrite <- length_hex_digits.
  destruct (Pos.to_hex_uint p); [now destruct Hnil | reflexivity ..].
Qed.

(** A number below [16 ^ k] has at most [k] digits. *)
Lemma length_hex_le (n : N) (k : nat) :
  (0 < k)%nat -> (Z.of_N n < 16 ^ Z.of_nat k)%Z -> (String.length (hex n) <= k)%nat.
Proof.
  intros Hk Hn. destruct n as [|p]; [cbn; lia|].
  rewrite length_hex_pos. pose proof (hex_digits_bounds p) as [Hlo _].
  cbn [Z.of_N] in Hn.
  destruct (Nat.le_gt_cases (Hexadecimal.nb_digits (Pos.to_hex_uint p)) k) as [|Hgt];
    [assumption|].
  exfalso.
  assert (16 ^ Z.of_nat k
          <= 16 ^ (Z.of_nat (Hexadecimal.nb_digits (Pos.to_hex_uint p)) - 1))%Z
    by (apply Z.pow_le_mono_r; lia).
  lia.
Qed.

(** A number from [16 ^ (k - 1)] on has at least [k] digits. *)
Lemma length_hex_ge (n : N) (k : nat) :
  (16 ^ (Z.of_nat k - 1) <= Z.of_N n)%Z -> (0 < k)%nat ->
  (k <= String.length (hex n))%nat.
Proof.
  intros Hn Hk. destruct n as [|p].
  - cbn [Z.of_N] in Hn.
    assert (0 < 16 ^ (Z.of_nat k - 1))%Z by (apply Z.pow_pos_nonneg; lia). lia.
  - rewrite length_hex_pos. pose proof (hex_digits_bounds p) as [_ Hhi].
    cbn [Z.of_N] in Hn.
    destruct (Nat.le_gt_cases k (Hexadecimal.nb_digits (Pos.to_hex_uint p))) as [|Hgt];
      [assumption|].
    exfalso.
    assert (16 ^ Z.of_nat (Hexadecimal.nb_digits (Pos.to_hex_uint p))
            <= 16 ^ (Z.of_nat k - 1))%Z
      by (apply Z.pow_le_mono_r; lia).
    lia.
Qed.

Lemma length_repeat_char c k : String.length (repeat_char c k) = k.
Proof. induction k; simpl; congruence. Qed.

Lemma length_pad_left c w t :
  String.length (pad_left c w t) = Nat.max w (String.length t).
Proof. unfold pad_left. rewrite str_length_app, length_repeat_char. lia. Qed.

Lemma length_hex_uint64 (n : Z) :
  (0 <= n < 2 ^ 64)%Z -> (String.length (hex (Z.to_N n)) <= 16)%nat.
Proof.
  intros Hn. apply length_hex_le; [lia|]. rewrite Z2N.id by lia.
  change (16 ^ Z.of_nat 16)%Z with (2 ^ 64)%Z. lia.
Qed.

Lemma length_fmt_016x_nonneg (n : Z) :
  (0 <= n < 2 ^ 64)%Z -> String.length (fmt_016x n) = 16.
Proof.
  intros Hn. unfold fmt_016x. destruct (Z.ltb_spec n 0); [lia|].
  rewrite length_pad_left. pose proof (length_hex_uint64 n Hn). lia.
Qed.

Lemma length_fmt_016x_neg_small (n : Z) :
  (- 2 ^ 60 < n < 0)%Z -> String.length (fmt_016x n) = 16.
Proof.
  intros Hn. unfold fmt_016x. destruct (Z.ltb_spec n 0); [|lia].
  cbn [append String.length]. rewrite length_pad_left.
  assert (String.length (hex (Z.to_N (- n))) <= 15)%nat.
  { apply length_hex_le; [lia|]. rewrite Z2N.id by lia.
    change (16 ^ Z.of_nat 15)%Z with (2 ^ 60)%Z. lia. }
  lia.
Qed.

Lemma length_fmt_016x_neg_large (n : Z) :
  (- 2 ^ 64 < n <= - 2 ^ 60)%Z -> String.length (fmt_016x n) = 17.
Proof.
  intros Hn. unfold fmt_016x. destruct (Z.ltb_spec n 0); [|lia].
  cbn [append String.length]. rewrite length_pad_left.
  assert (String.length (hex (Z.to_N (- n))) <= 16)%nat
    by (apply length_hex_uint64; lia).
  assert (16 <= String.length (hex (Z.to_N (- n))))%nat.
  { apply length_hex_ge; [|lia]. rewrite Z2N.id by lia.
    change (16 ^ (Z.of_nat 16 - 1))%Z with (2 ^ 60)%Z. lia. }
  lia.
Qed.

Lemma length_fmt_16x (n : Z) :
  (0 <= n < 2 ^ 64)%Z -> String.length (fmt_16x n) = 16.
Proof.
  intros Hn. unfold fmt_16x. rewrite length_pad_left.
  pose proof (length_hex_uint64 n Hn). lia.
Qed.

Lemma parse_hex_hex (n : N) : parse_hex (hex n) = Some n.
Proof.
  unfold parse_hex, hex, HexadecimalString.NilZero.string_of_uint.
  pose proof (HexadecimalN.Unsigned.of_to n) as Hv.
  destruct (N.to_hex_uint n) eqn:E;
    try (rewrite HexadecimalString.NilEmpty.usu; cbn [option_map]; now rewrite Hv).
  destruct n; [discriminate|]. cbn in E.
  now destruct (HexadecimalPos.Unsigned.to_uint_nonnil p).
Qed.

Lemma parse_hex_zero (t : string) : parse_hex (String "0" t) = parse_hex t.
Proof.
  unfold parse_hex. cbn [HexadecimalString.NilEmpty.uint_of_string].
  destruct (HexadecimalString.NilEmpty.uint_of_string t); reflexivity.
Qed.

Lemma parse_hex_pad (k : nat) (t : string) :
  parse_hex (pad_left "0" k t) = parse_hex t.
Proof.
  unfold pad_left. induction (k - String.length t)%nat as [|j IH]; [reflexivity|].
  cbn [repeat_char append]. now rewrite parse_hex_zero.
Qed.

Lemma parse_hex_no_sign (t : string) (n : N) :
  parse_hex (String "-" t) <> Some n.
Proof.
  unfold parse_hex. cbn [HexadecimalString.NilEmpty.uint_of_string].
  destruct (HexadecimalString.NilEmpty.uint_of_string t); discriminate.
Qed.

Lemma parse_016x_unsigned (t : string) (n : N) :
  parse_hex t = Some n -> t <> "" -> parse_016x t = Some (Z.of_N n).
Proof.
  intros H Ht. destruct t as [|c r]; [now destruct Ht|].
  unfold parse_016x. destruct (Ascii.eqb_spec c "-") as [->|_].
  - now destruct (parse_hex_no_sign r n).
  - now rewrite H.
Qed.

Lemma hex_nonempty (n : N) : hex n <> "".
Proof.
  unfold hex, HexadecimalString.NilZero.string_of_uint.
  destruct (N.to_hex_uint n); discriminate.
Qed.

Lemma pad_left_nonempty c k t : t <> "" -> pad_left c k t <> "".
Proof.
  intros Ht E. apply (f_equal String.length) in E.
  rewrite length_pad_left in E. destruct t; [now destruct Ht | simpl in E; lia].
Qed.

(** A formatted lease id is read back as the id. *)
Lemma parse_fmt_016x (n : Z) : parse_016x (fmt_016x n) = Some n.
Proof.
  unfold fmt_016x. destruct (Z.ltb_spec n 0).
  - cbn [append parse_016x]. rewrite Ascii.eqb_refl, parse_hex_pad, parse_hex_hex.
    cbn [option_map]. f_equal. rewrite Z2N.id; lia.
  - rewrite (parse_016x_unsigned _ (Z.to_N n)).
    + f_equal. apply Z2N.id. lia.
    + now rewrite parse_hex_pad, parse_hex_hex.
    + apply pad_left_nonempty, hex_nonempty.
Qed.

Lemma fmt_016x_inj (a b : Z) : fmt_016x a = fmt_016x b -> a = b.
Proof.
  intros E. apply (f_equal parse_016x) in E.
  rewrite !parse_fmt_016x in E. congruence.
Qed.

End IdFacts.

(* ------------------------------------------------------------------ *)
(** ** Lease ids and the lease listing *)

Section LeaseIds.

Lemma Leases_out (resp : LeaseLeasesResponse) :
  out (Leases resp) =
  ("found " ++ fmt_d (Z.of_nat (List.length (ll_Leases resp))) ++ " leases") ++ nl
  ++ cat (map (fun t => t ++ nl)
            (map (fun item => fmt_016x (ls_ID item)) (ll_Leases resp))).
Proof.
  unfold Leases. rewrite out_seq, out_for_range by auto with printer.
  rewrite map_map, out_Print. now rewrite !str_app_assoc.
Qed.

Lemma Leases_head_one_line (resp : LeaseLeasesResponse) :
  occurs newline
    ("found " ++ fmt_d (Z.of_nat (List.length (ll_Leases resp))) ++ " leases") = false.
Proof. rewrite !occurs_app, fmt_d_free by reflexivity. reflexivity. Qed.

Lemma Leases_id_one_line (resp : LeaseLeasesResponse) (t : string) :
  In t (map (fun item => fmt_016x (ls_ID item)) (ll_Leases resp)) ->
  occurs newline t = false.
Proof. intros Ht. apply in_map_iff in Ht as [item [<- _]]. now apply fmt_016x_free. Qed.

Lemma parse_fmt_d (n : Z) : parse_d (fmt_d n) = Some n.
Proof.
  unfold parse_d, fmt_d.
  rewrite DecimalString.NilZero.isi.
  - cbn [option_map]. now rewrite DecimalZ.of_to.
  - destruct n; cbn [Z.to_int]; [discriminate | | discriminate].
    intros [= E]. now apply (DecimalPos.Unsigned.to_uint_nonnil p).
  - destruct n; cbn [Z.to_int]; [discriminate | discriminate |].
    intros [= E]. now apply (DecimalPos.Unsigned.to_uint_nonnil p).
Qed.

(** X1.  The lease listing is the line [found <n> leases], where the
    decimal number [n] is the number of leases of the response, and
    then one line per lease, in order, that holds the id of the lease:
    the count printed is the number of lines that follow, and the
    listing has one line more than there are leases. *)
Theorem Leases_line_count (resp : LeaseLeasesResponse) :
  out (Leases resp)
  = "found " ++ fmt_d (Z.of_nat (List.length (ll_Leases resp))) ++ " leases" ++ nl
    ++ cat (map (fun item => fmt_016x (ls_ID item) ++ nl) (ll_Leases resp))
  /\ parse_d (fmt_d (Z.of_nat (List.length (ll_Leases resp))))
     = Some (Z.of_nat (List.length (ll_Leases resp)))
  /\ lines (cat (map (fun item => fmt_016x (ls_ID item) ++ nl) (ll_Leases resp)))
     = List.length (ll_Leases resp)
  /\ lines (out (Leases resp)) = 1 + List.length (ll_Leases resp).
Proof.
  assert (Hbody :
            lines (cat (map (fun item => fmt_016x (ls_ID item) ++ nl) (ll_Leases resp)))
            = List.length (ll_Leases resp)).
  { apply lines_cat_map. intros item _. apply lines_line. now apply fmt_016x_free. }
  assert (Hout :
            out (Leases resp)
            = "found " ++ fmt_d (Z.of_nat (List.length (ll_Leases resp))) ++ " leases" ++ nl
              ++ cat (map (fun item => fmt_016x (ls_ID item) ++ nl) (ll_Leases resp))).
  { rewrite Leases_out, map_map. now rewrite !str_app_assoc. }
  split; [exact Hout|]. split; [apply parse_fmt_d|]. split; [exact Hbody|].
  rewrite Hout, !lines_app, Hbody.
  rewrite (lines_no_newline (fmt_d _)) by now apply fmt_d_free.
  reflexivity.
Qed.

(** X2.  The lease listing tells the lease ids: two responses whose
    lists of ids differ are printed differently. *)
Theorem Leases_ids_readable (r1 r2 : LeaseLeasesResponse) :
  map ls_ID (ll_Leases r1) <> map ls_ID (ll_Leases r2) ->
  out (Leases r1) <> out (Leases r2).
Proof.
  intros Hne E. apply Hne. clear Hne. rewrite !Leases_out in E.
  apply first_line_inj in E as [_ E]; try apply Leases_head_one_line.
  apply lines_inj in E; try apply Leases_id_one_line.
  revert E. generalize (ll_Leases r2).
  induction (ll_Leases r1) as [|a l IH]; intros [|b l'] E; cbn [map] in *;
    try discriminate; [reflexivity|].
  injection E as Ea E. f_equal; [now apply fmt_016x_inj | now apply IH].
Qed.

Lemma Leases_ids_readable_witness :
  out (Leases {| ll_Leases := [ {| ls_ID := 1 |}; {| ls_ID := 2 |} ] |})
  <> out (Leases {| ll_Leases := [ {| ls_ID := 1 |}; {| ls_ID := 3 |} ] |}).
Proof. apply Leases_ids_readable. discriminate. Defined.

(** X3.  The line of a revoked lease has a fixed length of 31 bytes,
    the id filling sixteen columns, for every id above [-2^60], the
    sign of a negative id taking one of the columns; from [-2^60] down
    the id needs seventeen columns and the line has 32 bytes. *)
Theorem Revoke_width (id : Z) (r : Unread) :
  ((- 2 ^ 60 < id < 2 ^ 63)%Z -> String.length (out (Revoke id r)) = 31)
  /\ ((- 2 ^ 63 <= id <= - 2 ^ 60)%Z -> String.length (out (Revoke id r)) = 32).
Proof.
  unfold Revoke. rewrite out_Print, !str_length_app. split; intros H.
  - destruct (Z.ltb_spec id 0).
    + rewrite length_fmt_016x_neg_small by lia. reflexivity.
    + rewrite length_fmt_016x_nonneg by lia. reflexivity.
  - rewrite length_fmt_016x_neg_large by lia. reflexivity.
Qed.

Lemma Revoke_width_witness :
  String.length (out (Revoke 7587862094499260943 tt)) = 31
  /\ String.length (out (Revoke (- 2 ^ 63) tt)) = 32.
Proof.
  split.
  - apply (proj1 (Revoke_width 7587862094499260943 tt)). lia.
  - apply (proj2 (Revoke_width (- 2 ^ 63) tt)). lia.
Defined.

(** X4.  Two different lease ids are never printed as the same text. *)
Theorem Revoke_id_inj (a b : Z) (r r' : Unread) :
  a <> b -> out (Revoke a r) <> out (Revoke b r').
Proof.
  intros Hne E. apply Hne. unfold Revoke in E. rewrite !out_Print in E.
  apply str_app_inv_head in E. apply str_app_inv_tail in E.
  now apply fmt_016x_inj.
Qed.

Lemma Revoke_id_inj_witness : out (Revoke 1 tt) <> out (Revoke (-1) tt).
Proof. apply Revoke_id_inj. discriminate. Defined.

(** X5.  The lines of a removed, an updated and a promoted member have
    a fixed length when the member id and the cluster id are 64-bit
    unsigned numbers: each id fills sixteen columns. *)
Theorem Member_lines_width (id : Z) (r : MemberResponse) :
  (0 <= id < 2 ^ 64)%Z -> (0 <= ClusterId (Header r) < 2 ^ 64)%Z ->
  String.length (out (MemberRemove id r)) = 62
  /\ String.length (out (MemberUpdate id r)) = 60
  /\ String.length (out (MemberPromote id r)) = 61.
Proof.
  intros Hi Hc. unfold MemberRemove, MemberUpdate, MemberPromote.
  rewrite !out_Print, !str_length_app, !length_fmt_16x by assumption.
  repeat split.
Qed.

Lemma Member_lines_width_witness :
  String.length (out (MemberRemove 255 {| Header := {| ClusterId := 2 ^ 64 - 1 |} |})) = 62
  /\ String.length (out (MemberUpdate 255 {| Header := {| ClusterId := 2 ^ 64 - 1 |} |})) = 60
  /\ String.length (out (MemberPromote 255 {| Header := {| ClusterId := 2 ^ 64 - 1 |} |})) = 61.
Proof. apply Member_lines_width; simpl; lia. Defined.

End LeaseIds.

(* ------------------------------------------------------------------ *)
(** ** Whole lines *)

(** Closes [whole_lines (a ++ b ++ ... ++ nl) = true]. *)
Ltac ends_with_nl := rewrite <- ?str_app_assoc; apply whole_lines_line.

Section WholeLines.

Lemma keeps_lines_skip : keeps_lines skip.
Proof. split; [apply stdout_only_skip | reflexivity]. Qed.

Lemma keeps_lines_Print (t : string) :
  whole_lines t = true -> keeps_lines (fmt_Print t).
Proof. intros H. split; [apply stdout_only_Print | exact H]. Qed.

Lemma keeps_lines_seq (p q : Print) :
  keeps_lines p -> keeps_lines q -> keeps_lines (p ;; q).
Proof.
  intros [Hp Wp] [Hq Wq]. split; [now apply stdout_only_seq|].
  rewrite out_seq by now apply stdout_only_appends. now apply whole_lines_app.
Qed.

Lemma keeps_lines_for_range {A : Type} (xs : list A) (body : A -> Print) :
  (forall x, keeps_lines (body x)) -> keeps_lines (for_range xs body).
Proof.
  intros H. induction xs as [|x xs IH]; cbn [for_range].
  - apply keeps_lines_skip.
  - apply keeps_lines_seq; [apply H | exact IH].
Qed.

End WholeLines.

Ltac lines_step :=
  lazymatch goal with
  | |- keeps_lines skip => apply keeps_lines_skip
  | |- keeps_lines (fmt_Print _) => apply keeps_lines_Print; ends_with_nl
  | |- keeps_lines (fmt_Println _) => apply keeps_lines_Print; ends_with_nl
  | |- keeps_lines (seq _ _) => apply keeps_lines_seq
  | |- keeps_lines (for_range _ _) =>
      apply keeps_lines_for_range; intros; cbv beta
  | |- keeps_lines (if ?b then _ else _) => destruct b
  | |- keeps_lines _ => assumption
  end.

Ltac lines_rule := intros; cbv zeta; repeat lines_step.

Section WholeLinesRules.

Context {ext : External}.
Variable s : simplePrinter.

Lemma printRange_keeps_lines (perm : Permission) : keeps_lines (printRange perm).
Proof.
  split; [apply printRange_stdout_only|]. rewrite printRange_out. ends_with_nl.
Qed.

Lemma RoleGet_keeps_lines (role : string) (r : AuthRoleGetResponse) :
  keeps_lines (RoleGet role r).
Proof.
  rewrite RoleGet_unfold. unfold listing_loop.
  pose proof printRange_keeps_lines as Hr.
  lines_rule; apply Hr.
Qed.

Lemma UserGet_keeps_lines (name : string) (r : AuthUserGetResponse) :
  keeps_lines (UserGet name r).
Proof.
  unfold UserGet. apply keeps_lines_seq; [lines_rule|].
  split; [stdout_rule|].
  rewrite !out_seq by auto 8 with printer. rewrite !out_Print. ends_with_nl.
Qed.

Lemma TimeToLive_keeps_lines (resp : LeaseTimeToLiveResponse) (keys : bool) :
  keeps_lines (TimeToLive resp keys).
Proof.
  destruct (is_expired resp) eqn:E.
  - rewrite (TimeToLive_expired _ _ E). unfold expired_line. lines_rule.
  - rewrite (TimeToLive_alive _ _ E). lines_rule.
Qed.

Lemma run_keeps_lines (c : Call) :
  match c with
  | call_Del _ | call_Get _ | call_Put _ | call_Txn _ | call_Watch _
  | call_EndpointHealth _ => True
  | _ => keeps_lines (run s c)
  end.
Proof.
  destruct c; cbn [run]; try exact I;
    try apply RoleGet_keeps_lines; try apply UserGet_keeps_lines;
    try apply TimeToLive_keeps_lines;
    match goal with
    | |- keeps_lines (?f _ _ _ _) => unfold f
    | |- keeps_lines (?f _ _ _) => unfold f
    | |- keeps_lines (?f _ _) => unfold f
    | |- keeps_lines (?f _) => unfold f
    end; unfold strings_Join; lines_rule.
Qed.

Lemma keeps_lines_run (p : Print) (w : World) :
  keeps_lines p ->
  whole_lines (Stdout w) = true -> whole_lines (Stderr w) = true ->
  whole_lines (Stdout (p w)) = true /\ whole_lines (Stderr (p w)) = true.
Proof.
  intros [H Hw] Ho He. rewrite (H w). cbn [Stdout Stderr].
  split; [now apply whole_lines_app | exact He].
Qed.

(** X6.  No entry point leaves a line unfinished.  For every entry
    point that does not go through the key/value encoder: if both
    streams are made of whole lines before the call, they are made of
    whole lines after it, whatever the arguments hold. *)
Theorem run_keeps_whole_lines (c : Call) (w : World) :
  uses_printKV c = false ->
  whole_lines (Stdout w) = true -> whole_lines (Stderr w) = true ->
  whole_lines (Stdout (run s c w)) = true /\ whole_lines (Stderr (run s c w)) = true.
Proof.
  intros Hc Ho He. pose proof (run_keeps_lines c) as H.
  destruct c; try discriminate Hc; try (now apply keeps_lines_run).
  cbn [run]. rewrite EndpointHealth_split. cbn [Stdout Stderr]. split.
  - apply whole_lines_app; [exact Ho|]. apply whole_lines_cat.
    intros t Ht. apply in_map_iff in Ht as [h [<- _]].
    unfold success_line. ends_with_nl.
  - apply whole_lines_app; [exact He|]. apply whole_lines_cat.
    intros t Ht. apply in_map_iff in Ht as [h [<- _]].
    unfold failure_line. ends_with_nl.
Qed.

End WholeLinesRules.

Section WholeLinesExamples.

(** The theorem at a user with two roles and at a mixed health-check
    batch. *)
Lemma run_keeps_whole_lines_witness :
  (whole_lines
     (Stdout (@run sample_External {| isHex := false; valueOnly := false |}
                (call_UserGet "alice" {| ug_Roles := ["dev"; "ops"] |}) nothing)) = true)
  /\ (whole_lines
        (Stderr (@run sample_External {| isHex := false; valueOnly := false |}
                   (call_EndpointHealth
                      [ @Build_epHealth sample_External "a:2379" "1ms" "";
                        @Build_epHealth sample_External "b:2379" "1s" "timeout" ])
                   nothing)) = true).
Proof.
  split.
  - apply (@run_keeps_whole_lines sample_External); reflexivity.
  - apply (@run_keeps_whole_lines sample_External); reflexivity.
Defined.

End WholeLinesExamples.

(* ------------------------------------------------------------------ *)
(** ** The role rule at its edges *)

Section RoleEdges.

(** X7.  What the role rule prints for [root] without a permission
    list is what its listing path prints for [root] with the single
    read-write grant on the empty key with the open-ended range end. *)
Theorem RoleGet_root_shortcut (r : AuthRoleGetResponse) (w : World) :
  Perm r = None ->
  RoleGet rootRole r w = RoleGet rootRole {| Perm := Some [whole_keyspace_grant] |} w.
Proof.
  intros H.
  rewrite (stdout_only_run _ _ (RoleGet_stdout_only rootRole r) (RoleGet_root_out r H) w).
  symmetry. apply stdout_only_run; [apply RoleGet_stdout_only|]. reflexivity.
Qed.

Lemma RoleGet_root_shortcut_witness :
  RoleGet "root" {| Perm := None |} nothing
  = RoleGet "root" {| Perm := Some [whole_keyspace_grant] |} nothing.
Proof. apply (RoleGet_root_shortcut {| Perm := None |} nothing). reflexivity. Defined.

(** X8.  A nil permission list and an empty one are printed alike for
    every role but [root]; for [root] they are printed differently. *)
Theorem RoleGet_nil_or_empty (role : string) (w : World) :
  (role <> "root" ->
     RoleGet role {| Perm := None |} w = RoleGet role {| Perm := Some [] |} w)
  /\ (role = "root" ->
        Stdout (RoleGet role {| Perm := None |} w)
        <> Stdout (RoleGet role {| Perm := Some [] |} w)).
Proof.
  split.
  - intros H. unfold RoleGet. cbn [Perm is_nil elems].
    destruct (String.eqb_spec rootRole role) as [E|_]; [now destruct H|].
    reflexivity.
  - intros ->.
    pose proof (stdout_only_run _ _ (RoleGet_stdout_only _ _)
                  (RoleGet_root_out {| Perm := None |} eq_refl) w) as E1.
    pose proof (stdout_only_run _ _ (RoleGet_stdout_only _ _)
                  (RoleGet_listing_out "root" {| Perm := Some [] |} eq_refl) w) as E2.
    change rootRole with "root" in E1. rewrite E1, E2.
    cbn [emit Stdout]. intros E. apply str_app_inv_head in E. discriminate.
Qed.

Lemma RoleGet_nil_or_empty_witness :
  RoleGet "dev" {| Perm := None |} nothing = RoleGet "dev" {| Perm := Some [] |} nothing
  /\ Stdout (RoleGet "root" {| Perm := None |} nothing)
     <> Stdout (RoleGet "root" {| Perm := Some [] |} nothing).
Proof.
  split.
  - apply (proj1 (RoleGet_nil_or_empty "dev" nothing)). discriminate.
  - apply (proj2 (RoleGet_nil_or_empty "root" nothing)). reflexivity.
Defined.

(** X9.  A range is written the same way where it is listed and where
    its revocation is reported: for a range end that is not empty, the
    revocation line holds the range text of the listing line, the
    unbalanced open-ended form included. *)
Theorem revoked_range_as_listed (role : string) (perm : Permission) (r : Unread) :
  RangeEnd perm <> "" ->
  (exists note : string,
      (note = "" \/ note = prefix_note perm)
      /\ out (printRange perm) = tab ++ range_text perm ++ note ++ nl)
  /\ out (RoleRevokePermission role (Key perm) (RangeEnd perm) r)
     = "Permission of range " ++ range_text perm
       ++ " is revoked from role " ++ role ++ nl.
Proof.
  intros He. split.
  - rewrite printRange_out.
    destruct ((GetPrefixRangeEnd (Key perm) =? RangeEnd perm)
              && (0 <? String.length (Key perm))%nat);
      [exists (prefix_note perm) | exists ""]; auto.
  - unfold RoleRevokePermission, range_text. rewrite str_length_zero.
    apply String.eqb_neq in He. rewrite He.
    destruct (RangeEnd perm =? nul); cbn [negb]; rewrite out_Print; text.
Qed.

Lemma revoked_range_as_listed_witness :
  out (RoleRevokePermission "dev" "a" nul tt)
  = "Permission of range [a, <open ended> is revoked from role dev" ++ nl.
Proof.
  destruct (revoked_range_as_listed "dev"
              {| PermType := PermRead; Key := "a"; RangeEnd := nul |} tt)
    as [_ H]; [discriminate | exact H].
Defined.

End RoleEdges.

(* ------------------------------------------------------------------ *)
(** ** Lists of names and of keys *)

Section NameLists.

(** X10.  The attached keys of a lease are not delimited: a key that
    holds a space is printed like two keys. *)
Theorem attached_keys_not_delimited
  (id ttl granted : Z) (a b : string) (rest : list string) (w : World) :
  TimeToLive {| ID := id; TTL := ttl; GrantedTTL := granted;
                Keys := (a ++ " " ++ b) :: rest |} true w
  = TimeToLive {| ID := id; TTL := ttl; GrantedTTL := granted;
                  Keys := a :: b :: rest |} true w.
Proof.
  unfold TimeToLive. cbn [ID TTL GrantedTTL Keys].
  destruct ((granted =? 0)%Z && (ttl =? -1)%Z); [reflexivity|].
  cbv zeta. rewrite !map_id. unfold fmt_v_strings.
  now rewrite concat_sep_split.
Qed.

Lemma roles_joined (l : list string) :
  cat (map (fun role => " " ++ role) l)
  = match l with
    | [] => ""
    | _ :: _ => " " ++ String.concat " " l
    end.
Proof.
  induction l as [|a l IH]; [reflexivity|].
  cbn [map cat]. rewrite IH.
  destruct l; cbn [String.concat]; [now rewrite str_app_nil_r|].
  now rewrite !str_app_assoc.
Qed.

(** X11.  The user rule prints the line [User: <name>] and then one
    line [Roles:] that holds the roles joined by single spaces; for a
    user without roles the line is [Roles:] alone, with no space after
    the colon. *)
Theorem UserGet_roles_line (name : string) (r : AuthUserGetResponse) (w : World) :
  UserGet name r w =
  emit w (mkWorld
            ("User: " ++ name ++ nl
             ++ "Roles:"
             ++ match ug_Roles r with
                | [] => ""
                | _ :: _ => " " ++ String.concat " " (ug_Roles r)
                end
             ++ nl)
            "").
Proof.
  apply stdout_only_run; [unfold UserGet; stdout_rule|].
  unfold UserGet. rewrite !out_seq by auto 8 with printer.
  rewrite out_for_range by auto with printer.
  rewrite !out_Print.
  replace (map (fun x => out (fmt_Print (" " ++ x))) (ug_Roles r))
    with (map (fun role => " " ++ role) (ug_Roles r)) by reflexivity.
  rewrite roles_joined. now rewrite !str_app_assoc.
Qed.

Lemma name_lines_out (l : list string) :
  out (for_range l (fun name => fmt_Print (name ++ nl)))
  = cat (map (fun t => t ++ nl) l).
Proof. now rewrite out_for_range by auto with printer. Qed.

(** X12.  When no name holds a line terminator, the role list and the
    user list have as many lines as names, and two different lists of
    names are printed differently. *)
Theorem name_lists_one_per_line (l1 l2 : list string) :
  (forall t, In t l1 -> occurs newline t = false) ->
  (forall t, In t l2 -> occurs newline t = false) ->
  lines (out (RoleList {| rl_Roles := l1 |})) = List.length l1
  /\ lines (out (UserList {| Users := l1 |})) = List.length l1
  /\ (l1 <> l2 ->
      out (RoleList {| rl_Roles := l1 |}) <> out (RoleList {| rl_Roles := l2 |})
      /\ out (UserList {| Users := l1 |}) <> out (UserList {| Users := l2 |})).
Proof.
  intros H1 H2. unfold RoleList, UserList. cbn [rl_Roles Users].
  rewrite !name_lines_out.
  assert (Hl : lines (cat (map (fun t => t ++ nl) l1)) = List.length l1).
  { apply lines_cat_map. intros t Ht. now apply lines_line, H1. }
  split; [exact Hl|]. split; [exact Hl|].
  intros Hne. split; intros E; apply Hne; now apply lines_inj.
Qed.

Lemma name_lists_one_per_line_witness :
  lines (out (RoleList {| rl_Roles := ["dev"; "ops"] |})) = 2
  /\ out (UserList {| Users := ["dev"; "ops"] |}) <> out (UserList {| Users := ["dev"] |}).
Proof.
  destruct (name_lists_one_per_line ["dev"; "ops"] ["dev"]) as [H [_ K]].
  - intros t [<-|[<-|[]]]; reflexivity.
  - intros t [<-|[]]; reflexivity.
  - split; [exact H|]. apply K. discriminate.
Defined.

(** X13.  Names are not escaped: a name that holds a line terminator
    is printed by the role list and by the user list like two names. *)
Theorem name_with_newline_is_two_names (a b : string) (rest : list string) (w : World) :
  RoleList {| rl_Roles := (a ++ nl ++ b) :: rest |} w
  = RoleList {| rl_Roles := a :: b :: rest |} w
  /\ UserList {| Users := (a ++ nl ++ b) :: rest |} w
     = UserList {| Users := a :: b :: rest |} w.
Proof.
  unfold RoleList, UserList. cbn [rl_Roles Users for_range]. unfold seq, fmt_Print.
  cbn [Stdout Stderr]. now rewrite !str_app_assoc.
Qed.

End NameLists.

(* ------------------------------------------------------------------ *)
(** ** Tables *)

Section Tables.

Context {ext : External}.

(** X14.  The member list, the endpoint status and the endpoint hash
    rules print the rows of their table in order, one line per row,
    the cells of a row joined by a comma and a space; an empty table
    prints nothing and an empty row an empty line. *)
Theorem table_rules_rows
  (resp : MemberListResponse) (statusList : list epStatus) (hashList : list epHashKV)
  (w : World) :
  MemberList resp w
  = emit w (mkWorld
              (cat (map (fun row => String.concat ", " row ++ nl)
                      (makeMemberListTable resp))) "")
  /\ EndpointStatus statusList w
     = emit w (mkWorld
                 (cat (map (fun row => String.concat ", " row ++ nl)
                         (makeEndpointStatusTable statusList))) "")
  /\ EndpointHashKV hashList w
     = emit w (mkWorld
                 (cat (map (fun row => String.concat ", " row ++ nl)
                         (makeEndpointHashKVTable hashList))) "").
Proof.
  repeat split; (apply stdout_only_run;
    [unfold MemberList, EndpointStatus, EndpointHashKV; stdout_rule|]);
    unfold MemberList, EndpointStatus, EndpointHashKV; cbv zeta;
    now rewrite out_for_range by auto with printer.
Qed.



End Tables.

Section TablesExamples.


End TablesExamples.

(* ------------------------------------------------------------------ *)
(** ** The number of lines of a role listing *)

Section RoleLines.

Lemma range_text_one_line (perm : Permission) :
  occurs newline (Key perm) = false -> occurs newline (RangeEnd perm) = false ->
  occurs newline (range_text perm) = false.
Proof.
  intros Hk He. unfold range_text.
  destruct (RangeEnd perm =? nul); rewrite !occurs_app, Hk, ?He; reflexivity.
Qed.

Lemma entry_line_one_line (perm : Permission) :
  occurs newline (Key perm) = false -> occurs newline (RangeEnd perm) = false ->
  lines (entry_line perm) = 1.
Proof.
  intros Hk He. unfold entry_line. destruct (RangeEnd perm =? "").
  - rewrite <- str_app_assoc. apply lines_line.
    rewrite occurs_app, Hk. reflexivity.
  - rewrite printRange_out, <- !str_app_assoc. apply lines_line.
    rewrite !occurs_app, range_text_one_line by assumption.
    destruct ((GetPrefixRangeEnd (Key perm) =? RangeEnd perm)
              && (0 <? String.length (Key perm))%nat); [|reflexivity].
    unfold prefix_note. rewrite !occurs_app, Hk. reflexivity.
Qed.

(** X16.  On the listing path, when neither the role name nor a key
    or range end holds a line terminator, the role rule prints three
    lines (the role and the two titles) and one line per entry of the
    read listing and of the write listing: a read-write entry counts
    twice. *)
Theorem RoleGet_line_count (role : string) (r : AuthRoleGetResponse) :
  (rootRole =? role) && is_nil (Perm r) = false ->
  occurs newline role = false ->
  (forall perm, In perm (elems (Perm r)) ->
                occurs newline (Key perm) = false
                /\ occurs newline (RangeEnd perm) = false) ->
  lines (out (RoleGet role r))
  = 3 + List.length (filter in_read_listing (elems (Perm r)))
    + List.length (filter in_write_listing (elems (Perm r))).
Proof.
  intros Hpath Hrole Hperm. rewrite (RoleGet_listing_out role r Hpath).
  unfold role_listing. rewrite !lines_app, !lines_cat_map.
  - rewrite (lines_no_newline role Hrole). cbn. lia.
  - intros perm Hin. apply filter_In in Hin as [Hin _].
    destruct (Hperm perm Hin). now apply entry_line_one_line.
  - intros perm Hin. apply filter_In in Hin as [Hin _].
    destruct (Hperm perm Hin). now apply entry_line_one_line.
Qed.

Lemma RoleGet_line_count_witness :
  lines (out (RoleGet "dev"
                {| Perm := Some [ {| PermType := PermReadWrite; Key := "p"; RangeEnd := "q" |};
                                  {| PermType := PermRead; Key := "a"; RangeEnd := "" |} ] |}))
  = 6.
Proof.
  rewrite RoleGet_line_count; [reflexivity | reflexivity | reflexivity |].
  intros perm [<-|[<-|[]]]; split; reflexivity.
Defined.

End RoleLines.
